(** * BooksApiService: the catalogue client and its request cache

    A shallow embedding of [BooksApiService] (the books API service of the
    application): the TTL cache ([isValidCache], [setCache], [clearOldCache],
    [clearAllCache], [getCacheStats]), the normalisation of raw catalogue
    records ([transformBookData], [transformBooksData], [extractYear]) and
    the three public operations ([searchBooks], [getAllBooks],
    [getBookDetails]) on top of [makeRequest].

    JavaScript strings are sequences of UTF-16 code units, JSON documents are
    a tree of values, the service object and its surroundings (wall clock,
    remote end) are one explicit [World] threaded through a state-and-
    exception monad. *)

From Stdlib Require Import ZArith NArith List String Ascii Lia DecimalZ.
From stdpp Require Import base option list gmap.

Local Open Scope Z_scope.
Local Set Warnings "-register-all".

(* ===================================================================== *)
(** ** JavaScript strings *)
(* ===================================================================== *)

(** A string is its list of UTF-16 code units. *)
Abbreviation jsstring := (list N).

(** ASCII literals of the source, unit by unit. *)
Definition lit (s : string) : jsstring :=
  map N_of_ascii (list_ascii_of_string s).

(** WhiteSpace and LineTerminator code points of ECMAScript, the ones
    [String.prototype.trim] strips. *)
Definition is_white_space (c : N) : bool :=
  ((9 <=? c) && (c <=? 13) || (c =? 32) || (c =? 160) || (c =? 5760)
   || (8192 <=? c) && (c <=? 8202) || (c =? 8232) || (c =? 8233)
   || (c =? 8239) || (c =? 8287) || (c =? 12288) || (c =? 65279))%N.

Fixpoint trim_start (s : jsstring) : jsstring :=
  match s with
  | c :: s' => if is_white_space c then trim_start s' else s
  | [] => []
  end.

Definition trim (s : jsstring) : jsstring :=
  rev (trim_start (rev (trim_start s))).

Definition is_digit (c : N) : bool := ((48 <=? c) && (c <=? 57))%N.

Fixpoint digits_of_uint (u : Decimal.uint) : jsstring :=
  match u with
  | Decimal.Nil => []
  | Decimal.D0 u => 48%N :: digits_of_uint u
  | Decimal.D1 u => 49%N :: digits_of_uint u
  | Decimal.D2 u => 50%N :: digits_of_uint u
  | Decimal.D3 u => 51%N :: digits_of_uint u
  | Decimal.D4 u => 52%N :: digits_of_uint u
  | Decimal.D5 u => 53%N :: digits_of_uint u
  | Decimal.D6 u => 54%N :: digits_of_uint u
  | Decimal.D7 u => 55%N :: digits_of_uint u
  | Decimal.D8 u => 56%N :: digits_of_uint u
  | Decimal.D9 u => 57%N :: digits_of_uint u
  end.

(** [Number.prototype.toString] on an integer: decimal digits, a leading
    minus sign for a negative one.  This is the rendering of the integers
    below 10^21 in size that a JavaScript number holds exactly; from 10^21
    on JavaScript writes an exponent, which is not modelled. *)
Definition number_to_string (z : Z) : jsstring :=
  match Z.to_int z with
  | Decimal.Pos u => digits_of_uint u
  | Decimal.Neg u => 45%N :: digits_of_uint u
  end.

(** [parts.join(sep)] on strings. *)
Fixpoint join_strings (sep : jsstring) (parts : list jsstring) : jsstring :=
  match parts with
  | [] => []
  | [p] => p
  | p :: rest => p ++ sep ++ join_strings sep rest
  end.

(* ===================================================================== *)
(** ** JavaScript values *)
(* ===================================================================== *)

(** What [JSON.parse] can produce, and [undefined].  Numbers are carried by
    their integer value: the service only tests them for truthiness and
    renders them in decimal; a number with a fraction (a rating of 4.5)
    is outside the values written here, and a raw record stands for the
    records whose numbers are whole.  An object is the list of its own
    properties. *)
Inductive value : Type :=
| VUndefined
| VNull
| VBool (b : bool)
| VNumber (z : Z)
| VString (s : jsstring)
| VArray (items : list value)
| VObject (fields : list (jsstring * value)).

(** The one exception the modelled code can raise: a [TypeError] (reading a
    property of [null]/[undefined], calling what is not a function). *)
Inductive exn : Type := TypeError.

Inductive outcome (A : Type) : Type :=
| Return (a : A)
| Throw (e : exn).
Arguments Return {A} a.
Arguments Throw {A} e.

#[global] Instance outcome_ret : MRet outcome := @Return.
#[global] Instance outcome_bind : MBind outcome := fun A B f m =>
  match m with
  | Return a => f a
  | Throw e => Throw e
  end.

(** ToBoolean. *)
Definition truthy (v : value) : bool :=
  match v with
  | VUndefined | VNull => false
  | VBool b => b
  | VNumber z => negb (z =? 0)
  | VString s => match s with [] => false | _ => true end
  | VArray _ | VObject _ => true
  end.

(** [a || b]. *)
Definition js_or (a b : value) : value := if truthy a then a else b.

Fixpoint own_property (fields : list (jsstring * value)) (name : jsstring)
  : value :=
  match fields with
  | [] => VUndefined
  | (k, v) :: rest => if decide (k = name) then v else own_property rest name
  end.

(** [v.name], for the property names the service reads (none of them is
    defined on a built-in prototype): an object answers with its own
    property, any other non-nullish value with [undefined], and reading a
    property of [null] or [undefined] throws. *)
Definition get_prop (v : value) (name : string) : outcome value :=
  match v with
  | VUndefined | VNull => Throw TypeError
  | VObject fields => Return (own_property fields (lit name))
  | _ => Return VUndefined
  end.

(** Whether an object has an own property called [name], whatever its
    value. *)
Definition has_own_property (fields : list (jsstring * value))
    (name : jsstring) : bool :=
  existsb (fun field => bool_decide (field.1 = name)) fields.

(** A conversion that may throw, on every element of a list, from left
    to right. *)
Definition map_outcome {A B} (f : A -> outcome B)
  : list A -> outcome (list B) :=
  fix convert (l : list A) : outcome (list B) :=
    match l with
    | [] => Return []
    | x :: rest =>
        match f x with
        | Return y =>
            match convert rest with
            | Return ys => Return (y :: ys)
            | Throw e => Throw e
            end
        | Throw e => Throw e
        end
    end.

(** ToString.  A list is rendered by its [join(",")], which renders
    [null] and [undefined] as the empty string.  An object of JSON is
    rendered by [Object.prototype.toString], unless it has an own property
    called [toString]: that property is no function (JSON has none),
    [valueOf] gives no primitive either, and the conversion throws a
    TypeError. *)
Fixpoint to_string (v : value) : outcome jsstring :=
  match v with
  | VUndefined => Return (lit "undefined")
  | VNull => Return (lit "null")
  | VBool true => Return (lit "true")
  | VBool false => Return (lit "false")
  | VNumber z => Return (number_to_string z)
  | VString s => Return s
  | VArray items =>
      match map_outcome (fun x => match x with
                                  | VUndefined | VNull => Return []
                                  | _ => to_string x
                                  end) items with
      | Return parts => Return (join_strings (lit ",") parts)
      | Throw e => Throw e
      end
  | VObject fields =>
      if has_own_property fields (lit "toString") then Throw TypeError
      else Return (lit "[object Object]")
  end.

(** The per-element conversion of [Array.prototype.join]. *)
Definition join_element (v : value) : outcome jsstring :=
  match v with
  | VUndefined | VNull => Return []
  | _ => to_string v
  end.

(** [v.join(sep)]: only an array has the method. *)
Definition js_join (v : value) (sep : jsstring) : outcome jsstring :=
  match v with
  | VArray items =>
      parts ← map_outcome join_element items;
      Return (join_strings sep parts)
  | _ => Throw TypeError
  end.

(** [typeof v === 'string']. *)
Definition is_string (v : value) : bool :=
  match v with VString _ => true | _ => false end.

(** [v === 'text']. *)
Definition strict_eq_lit (v : value) (text : string) : bool :=
  match v with
  | VString s => bool_decide (s = lit text)
  | _ => false
  end.

(** [Array.prototype.find] with a predicate that may throw. *)
Fixpoint js_find (pred : value -> outcome bool) (items : list value)
  : outcome value :=
  match items with
  | [] => Return VUndefined
  | x :: rest =>
      b ← pred x;
      if b : bool then Return x else js_find pred rest
  end.

(* ===================================================================== *)
(** ** Dates *)
(* ===================================================================== *)

(** [n] in decimal on exactly [width] digits. *)
Fixpoint pad (width : nat) (n : Z) : jsstring :=
  match width with
  | O => []
  | S w => pad w (n / 10) ++ [Z.to_N (48 + n mod 10)]
  end.

(** Year, month and day of the proleptic Gregorian calendar for a day
    number counted from 1970-01-01. *)
Definition civil_from_days (days : Z) : Z * Z * Z :=
  let z := days + 719468 in
  let era := z / 146097 in
  let doe := z - era * 146097 in
  let yoe := (doe - doe / 1460 + doe / 36524 - doe / 146096) / 365 in
  let doy := doe - (365 * yoe + yoe / 4 - yoe / 100) in
  let mp := (5 * doy + 2) / 153 in
  let d := doy - (153 * mp + 2) / 5 + 1 in
  let m := if mp <? 10 then mp + 3 else mp - 9 in
  let y := yoe + era * 400 in
  (if m <=? 2 then y + 1 else y, m, d).

(** [new Date(t).toISOString()] for a time value [t] in milliseconds since
    the epoch: [YYYY-MM-DDTHH:mm:ss.sssZ], with a signed six-digit year
    outside 0..9999. *)
Definition toISOString (t : Z) : jsstring :=
  let ms := t mod 86400000 in
  let '(y, m, d) := civil_from_days (t / 86400000) in
  (if (0 <=? y) && (y <=? 9999) then pad 4 y
   else (if y <? 0 then lit "-" else lit "+") ++ pad 6 (Z.abs y))
  ++ lit "-" ++ pad 2 m ++ lit "-" ++ pad 2 d
  ++ lit "T" ++ pad 2 (ms / 3600000)
  ++ lit ":" ++ pad 2 (ms / 60000 mod 60)
  ++ lit ":" ++ pad 2 (ms / 1000 mod 60)
  ++ lit "." ++ pad 3 (ms mod 1000) ++ lit "Z".

(** The first match of [/(\d{4})/] in [s], read by [parseInt(_, 10)]. *)
Fixpoint first_year (s : jsstring) : option Z :=
  match s with
  | a :: s' =>
      match s' with
      | b :: c :: d :: _ =>
          if is_digit a && is_digit b && is_digit c && is_digit d
          then Some (Z.of_N ((((a - 48) * 10 + (b - 48)) * 10 + (c - 48)) * 10
                             + (d - 48)))
          else first_year s'
      | _ => None
      end
  | [] => None
  end.

(** [extractYear(dateString)]. *)
Definition extractYear (dateString : value) : outcome value :=
  if negb (truthy dateString) then Return VNull
  else match dateString with
       | VString s =>
           Return (match first_year s with
                   | Some y => VNumber y
                   | None => VNull
                   end)
       | _ => Throw TypeError       (* no [match] method to call *)
       end.

(* ===================================================================== *)
(** ** Normalised book records *)
(* ===================================================================== *)

Record ImageLinks : Type := {
  thumbnail : value;
  small : value;
  medium : value;
  large : value
}.

(** The object literal [transformBookData] returns, field by field. *)
Record BookRecord : Type := {
  bookId : value;
  titulo : value;
  autor : value;
  portadaUrl : value;
  imageLinks : ImageLinks;
  sinopsis : value;
  anoPublicacion : value;
  fechaPublicacion : value;
  editorial : value;
  idioma : value;
  numeroPaginas : value;
  generos : value;
  categorias : value;
  isbn : value;
  industryIdentifiers : value;
  previewLink : value;
  infoLink : value;
  rating : value;
  ratingsCount : value;
  transformedAt : value
}.

(** [obj.name || fallback]. *)
Definition prop_or (obj : value) (name : string) (fallback : value)
  : outcome value :=
  v ← get_prop obj name; mret (js_or v fallback).

(** [id => id.type === 'ISBN_13' || id.type === 'ISBN_10']. *)
Definition is_isbn_entry (id : value) : outcome bool :=
  t ← get_prop id "type";
  if strict_eq_lit t "ISBN_13" then mret true
  else t' ← get_prop id "type"; mret (strict_eq_lit t' "ISBN_10").

(** [v.find(pred)]: only an array has the method. *)
Definition array_find (v : value) (pred : value -> outcome bool)
  : outcome value :=
  match v with
  | VArray items => js_find pred items
  | _ => Throw TypeError
  end.

(** [v?.name]. *)
Definition get_prop_opt (v : value) (name : string) : outcome value :=
  match v with
  | VUndefined | VNull => Return VUndefined
  | _ => get_prop v name
  end.

(** [typeof v === 'string' ? [v] : v]. *)
Definition wrap_string (v : value) : value :=
  if is_string v then VArray [v] else v.

(** The body of the [try] block of [transformBookData], up to the reading
    of the clock: every field but [transformedAt], which is the last
    property of the literal to be evaluated. *)
Definition build_record (book : value) : outcome (value -> BookRecord) :=
  imageLinks ← prop_or book "imageLinks" (VObject []);
  il_thumbnail ← get_prop imageLinks "thumbnail";
  il_small ← get_prop imageLinks "smallThumbnail";
  il_medium ← get_prop imageLinks "medium";
  il_large ← get_prop imageLinks "large";
  let portadaUrl :=
    js_or il_thumbnail
      (js_or il_small (js_or il_medium (js_or il_large VNull))) in
  authors ← prop_or book "authors" (VArray []);
  let autores := wrap_string authors in
  joined ← js_join autores (lit ", ");
  let autor := js_or (VString joined) (VString (lit "Autor desconocido")) in
  categories ← prop_or book "categories" (VArray []);
  let generos := wrap_string categories in
  industryIdentifiers ← prop_or book "industryIdentifiers" (VArray []);
  found ← array_find industryIdentifiers is_isbn_entry;
  identifier ← get_prop_opt found "identifier";
  let isbn := js_or identifier VNull in
  id ← get_prop book "id";
  titulo ← prop_or book "title"
             (VString (lit "T" ++ [237%N] ++ lit "tulo no disponible"));
  sinopsis ← prop_or book "description" VNull;
  publishedDate ← get_prop book "publishedDate";
  anoPublicacion ← extractYear publishedDate;
  editorial ← prop_or book "publisher" VNull;
  idioma ← prop_or book "language" (VString (lit "es"));
  numeroPaginas ← prop_or book "pageCount" VNull;
  categorias ← prop_or book "categories" (VArray []);
  previewLink ← prop_or book "previewLink" VNull;
  infoLink ← prop_or book "infoLink" VNull;
  rating ← prop_or book "averageRating" VNull;
  ratingsCount ← prop_or book "ratingsCount" (VNumber 0);
  mret (fun stamp =>
    {| bookId := id;
       titulo := titulo;
       autor := autor;
       portadaUrl := portadaUrl;
       imageLinks := {| thumbnail := il_thumbnail; small := il_small;
                        medium := il_medium; large := il_large |};
       sinopsis := sinopsis;
       anoPublicacion := anoPublicacion;
       fechaPublicacion := js_or publishedDate VNull;
       editorial := editorial;
       idioma := idioma;
       numeroPaginas := numeroPaginas;
       generos := generos;
       categorias := categorias;
       isbn := isbn;
       industryIdentifiers := industryIdentifiers;
       previewLink := previewLink;
       infoLink := infoLink;
       rating := rating;
       ratingsCount := ratingsCount;
       transformedAt := stamp |}).

(* ===================================================================== *)
(** ** The service object and its surroundings *)
(* ===================================================================== *)

(** What a cache entry or a result carries in [data]: the list built by
    [transformBooksData], or the single record (or [null]) built by
    [transformBookData]. *)
Inductive Payload : Type :=
| Books (records : list BookRecord)
| Book (record : option BookRecord).

Record CacheEntry : Type := {
  data : Payload;
  timestamp : Z
}.

Inductive Method : Type := GET | POST.

(** The [requestBody] of a search, before [JSON.stringify]. *)
Record SearchBody : Type := {
  body_query : jsstring;
  body_maxResults : Z
}.

(** What [makeRequest] hands to [fetch]: the method, the URL, the
    [Authorization] header when a user e-mail is set, and the body. *)
Record Request : Type := {
  method : Method;
  url : jsstring;
  authorization : option jsstring;
  body : option SearchBody
}.

(** How a [fetch] bound to the abort timer can end. *)
Inductive FetchOutcome : Type :=
| Aborted                              (* the timer fired first *)
| NetworkFailure                       (* [fetch] rejected *)
| HttpResponse (status : Z) (statusText : jsstring)
               (json : option value).  (* [None]: [response.json()] rejects *)

(** Accesses to the [Map] and calls of [fetch], most recent first. *)
Inductive Effect : Type :=
| Fetch (req : Request)
| CacheGet (key : jsstring)
| CacheSet (key : jsstring)
| CacheDelete (key : jsstring)
| CacheSize
| CacheEntries
| CacheClear.

(** The fields of the service instance, the wall clock (its successive
    readings, and how many were taken), the remote end, and the log of
    effects. *)
Record World : Type := {
  cache : gmap jsstring CacheEntry;
  cacheTimeout : Z;
  maxResults : Z;
  timeout : Z;
  baseURL : jsstring;
  userEmail : option jsstring;
  clock : nat -> Z;
  ticks : nat;
  remote : Request -> FetchOutcome;
  effects : list Effect
}.

Definition with_cache (c : gmap jsstring CacheEntry) (w : World) : World :=
  {| cache := c; cacheTimeout := cacheTimeout w; maxResults := maxResults w;
     timeout := timeout w; baseURL := baseURL w; userEmail := userEmail w;
     clock := clock w; ticks := ticks w; remote := remote w;
     effects := effects w |}.

Definition with_ticks (n : nat) (w : World) : World :=
  {| cache := cache w; cacheTimeout := cacheTimeout w;
     maxResults := maxResults w; timeout := timeout w; baseURL := baseURL w;
     userEmail := userEmail w; clock := clock w; ticks := n;
     remote := remote w; effects := effects w |}.

Definition with_effect (e : Effect) (w : World) : World :=
  {| cache := cache w; cacheTimeout := cacheTimeout w;
     maxResults := maxResults w; timeout := timeout w; baseURL := baseURL w;
     userEmail := userEmail w; clock := clock w; ticks := ticks w;
     remote := remote w; effects := e :: effects w |}.

(** Computations of the service: they read and change the world, and end
    with a value or an exception. *)
Definition M (A : Type) : Type := World -> outcome A * World.

#[global] Instance M_ret : MRet M := fun A a w => (Return a, w).
#[global] Instance M_bind : MBind M := fun A B f m w =>
  match m w with
  | (Return a, w') => f a w'
  | (Throw e, w') => (Throw e, w')
  end.

Definition lift {A} (o : outcome A) : M A := fun w => (o, w).

(** [try { body } catch (error) { handler }]. *)
Definition try_catch {A} (body : M A) (handler : exn -> M A) : M A :=
  fun w =>
    match body w with
    | (Return a, w') => (Return a, w')
    | (Throw e, w') => handler e w'
    end.

Definition gets {A} (f : World -> A) : M A := fun w => (Return (f w), w).

(** [Date.now()], and the time value of [new Date()]. *)
Definition Date_now : M Z :=
  fun w => (Return (clock w (ticks w)), with_ticks (S (ticks w)) w).

(** The methods of [this.cache]. *)
Definition cache_get (key : jsstring) : M (option CacheEntry) :=
  fun w => (Return (cache w !! key), with_effect (CacheGet key) w).

Definition cache_set (key : jsstring) (e : CacheEntry) : M unit :=
  fun w =>
    (Return tt,
     with_effect (CacheSet key) (with_cache (<[key := e]> (cache w)) w)).

Definition cache_delete (key : jsstring) : M unit :=
  fun w =>
    (Return tt,
     with_effect (CacheDelete key) (with_cache (delete key (cache w)) w)).

Definition cache_size : M Z :=
  fun w => (Return (Z.of_nat (size (cache w))), with_effect CacheSize w).

Definition cache_clear : M unit :=
  fun w => (Return tt, with_effect CacheClear (with_cache ∅ w)).

(** [for (const [key, value] of this.cache.entries()) if (drop) delete]:
    every entry is visited once, and the ones the test selects are
    deleted.  The log records the sweep as one access to the entries: the
    [delete] of each selected entry, and the read of [size] for the log
    line that ends [clearOldCache], are not logged one by one. *)
Definition cache_delete_where (drop : CacheEntry -> bool) : M unit :=
  fun w =>
    (Return tt,
     with_effect CacheEntries
       (with_cache (filter (fun kv => drop kv.2 = false) (cache w)) w)).

(** [await fetch(url, config)] and [await response.json()]. *)
Definition fetch (req : Request) : M FetchOutcome :=
  fun w => (Return (remote w req), with_effect (Fetch req) w).

(* ===================================================================== *)
(** ** Requests *)
(* ===================================================================== *)

(** [{ success: true, data }] or [{ success: false, error }]. *)
Inductive RequestResult : Type :=
| RequestOk (body_data : value)
| RequestFailed (message : jsstring).

Definition msg_timeout : jsstring :=
  lit "La petici" ++ [243%N] ++ lit "n ha expirado. Verifica tu conexi"
  ++ [243%N] ++ lit "n.".

Definition msg_connection : jsstring :=
  lit "Error de conexi" ++ [243%N] ++ lit "n. Verifica tu internet.".

(** [response.ok]. *)
Definition response_ok (status : Z) : bool :=
  (200 <=? status) && (status <=? 299).

(** [makeRequest(method, endpoint, body)]. *)
Definition makeRequest (method : Method) (endpoint : jsstring)
    (body : option SearchBody) : M RequestResult :=
  base ← gets baseURL;
  email ← gets userEmail;
  let headers_authorization :=
    match email with
    | Some (c :: e) => Some (c :: e)
    | _ => None
    end in
  response ← fetch {| method := method; url := base ++ endpoint;
                      authorization := headers_authorization; body := body |};
  match response with
  | Aborted => mret (RequestFailed msg_timeout)
  | NetworkFailure => mret (RequestFailed msg_connection)
  | HttpResponse status statusText json =>
      if negb (response_ok status) then
        mret (RequestFailed (lit "Error HTTP " ++ number_to_string status
                             ++ lit ": " ++ statusText))
      else match json with
           | Some parsed => mret (RequestOk parsed)
           | None => mret (RequestFailed msg_connection)
           end
  end.

(* ===================================================================== *)
(** ** Normalisation *)
(* ===================================================================== *)

(** [!book || !book.id]: the record is missing, or lacks its identifier. *)
Definition lacks_id (book : value) : outcome bool :=
  if negb (truthy book) then mret true
  else id ← get_prop book "id"; mret (negb (truthy id)).

(** [transformBookData(book)]. *)
Definition transformBookData (book : value) : M (option BookRecord) :=
  invalid ← lift (lacks_id book);
  if invalid : bool then mret None
  else
    try_catch
      (fields ← lift (build_record book);
       now ← Date_now;
       mret (Some (fields (VString (toISOString now)))))
      (fun error => mret None).

Fixpoint map_M {A B} (f : A -> M B) (l : list A) : M (list B) :=
  match l with
  | [] => mret []
  | x :: rest => y ← f x; ys ← map_M f rest; mret (y :: ys)
  end.

(** [.filter(Boolean)] on what [transformBookData] returned: a record is
    truthy, [null] is not. *)
Definition filter_Boolean (l : list (option BookRecord)) : list BookRecord :=
  omap (fun r => r) l.

(** [transformBooksData(books)]. *)
Definition transformBooksData (books : value) : M (list BookRecord) :=
  match books with
  | VArray items =>
      mapped ← map_M transformBookData items;
      mret (filter_Boolean mapped)
  | _ => mret []
  end.

(* ===================================================================== *)
(** ** The cache *)
(* ===================================================================== *)

(** [isValidCache(key)]. *)
Definition isValidCache (key : jsstring) : M bool :=
  cached ← cache_get key;
  match cached with
  | None => mret false
  | Some entry =>
      now ← Date_now;
      ttl ← gets cacheTimeout;
      let isValid := now - timestamp entry <? ttl in
      (if negb isValid then cache_delete key else mret tt);;
      mret isValid
  end.

(** [clearOldCache()]. *)
Definition clearOldCache : M unit :=
  now ← Date_now;
  ttl ← gets cacheTimeout;
  cache_delete_where (fun entry => now - timestamp entry >? ttl).

(** [setCache(key, data)]. *)
Definition setCache (key : jsstring) (payload : Payload) : M unit :=
  now ← Date_now;
  cache_set key {| data := payload; timestamp := now |};;
  n ← cache_size;
  if n >? 100 then clearOldCache else mret tt.

(** [clearAllCache()]. *)
Definition clearAllCache : M unit := cache_clear.

Record CacheStats : Type := {
  entries : Z;
  maxSize : Z;
  timeoutMinutes : Z * Z      (* [cacheTimeout / (60 * 1000)], as a fraction *)
}.

(** [getCacheStats()]. *)
Definition getCacheStats : M CacheStats :=
  n ← cache_size;
  ttl ← gets cacheTimeout;
  mret {| entries := n; maxSize := 100; timeoutMinutes := (ttl, 60 * 1000) |}.

(* ===================================================================== *)
(** ** The public operations *)
(* ===================================================================== *)

(** The object an operation returns; [None] is a property the object does
    not have. *)
Record Result : Type := {
  success : bool;
  result_data : option Payload;
  totalItems : option value;
  fromCache : option bool;
  error : option jsstring
}.

(** [{ success: false, error }]. *)
Definition failure (message : jsstring) : Result :=
  {| success := false; result_data := None; totalItems := None;
     fromCache := None; error := Some message |}.

(** [{ success: true, data: this.cache.get(cacheKey).data,
       fromCache: true }]. *)
Definition from_cache (key : jsstring) : M Result :=
  cached ← cache_get key;
  match cached with
  | Some entry =>
      mret {| success := true; result_data := Some (data entry);
              totalItems := None; fromCache := Some true; error := None |}
  | None => lift (Throw TypeError)
  end.

(** [useCache && this.isValidCache(cacheKey)]. *)
Definition cache_hit (useCache : bool) (key : jsstring) : M bool :=
  if useCache then isValidCache key else mret false.

(** The [options] argument of [searchBooks]; [None] is a property left
    [undefined], which takes its default. *)
Record SearchOptions : Type := {
  opt_maxResults : option Z;
  opt_useCache : option bool
}.

Definition msg_validation : jsstring :=
  lit "La b" ++ [250%N] ++ lit "squeda debe tener al menos 2 caracteres".

(** [!query || query.trim().length < 2], [query] a string or absent. *)
Definition query_rejected (query : option jsstring) : bool :=
  match query with
  | None | Some [] => true
  | Some q => Z.of_nat (length (trim q)) <? 2
  end.

(** [`search_${cleanQuery}_${maxResults}`]. *)
Definition search_key (cleanQuery : jsstring) (maxResults : Z) : jsstring :=
  lit "search_" ++ cleanQuery ++ lit "_" ++ number_to_string maxResults.

(** The key [searchBooks] derives for a query that passed validation:
    [maxResults] defaults to the configured bound. *)
Definition searchCacheKey (w : World) (query : jsstring)
    (options : SearchOptions) : jsstring :=
  search_key (trim query) (default (maxResults w) (opt_maxResults options)).

(** [searchBooks(query, options)]. *)
Definition searchBooks (query : option jsstring) (options : SearchOptions)
  : M Result :=
  try_catch
    (if query_rejected query then mret (failure msg_validation)
     else
       let cleanQuery := trim (default [] query) in
       configured ← gets maxResults;
       let maxResults := default configured (opt_maxResults options) in
       let useCache := default true (opt_useCache options) in
       let cacheKey := search_key cleanQuery maxResults in
       hit ← cache_hit useCache cacheKey;
       if hit : bool then from_cache cacheKey
       else
         let requestBody :=
           {| body_query := cleanQuery; body_maxResults := maxResults |} in
         response ← makeRequest POST (lit "/search") (Some requestBody);
         match response with
         | RequestFailed message => mret (failure message)
         | RequestOk response_data =>
             books ← lift (prop_or response_data "books" (VArray []));
             transformedBooks ← transformBooksData books;
             (if useCache then setCache cacheKey (Books transformedBooks)
              else mret tt);;
             total ← lift (prop_or response_data "totalItems"
                             (VNumber (Z.of_nat (length transformedBooks))));
             mret {| success := true;
                     result_data := Some (Books transformedBooks);
                     totalItems := Some total;
                     fromCache := Some false; error := None |}
         end)
    (fun error =>
       mret (failure (lit "Error buscando libros. Intenta de nuevo."))).

(** [getAllBooks(useCache)]. *)
Definition getAllBooks (useCache : bool) : M Result :=
  try_catch
    (let cacheKey := lit "all_books" in
     hit ← cache_hit useCache cacheKey;
     if hit : bool then from_cache cacheKey
     else
       response ← makeRequest GET (lit "/books") None;
       match response with
       | RequestFailed message => mret (failure message)
       | RequestOk response_data =>
           books ← lift (prop_or response_data "books" (VArray []));
           transformedBooks ← transformBooksData books;
           (if useCache then setCache cacheKey (Books transformedBooks)
            else mret tt);;
           mret {| success := true;
                   result_data := Some (Books transformedBooks);
                   totalItems := None;
                   fromCache := Some false; error := None |}
       end)
    (fun error =>
       mret (failure (lit "Error obteniendo cat" ++ [225%N]
                      ++ lit "logo de libros"))).

(** [getBookDetails(bookId, useCache)], [bookId] a string or absent. *)
Definition getBookDetails (bookId : option jsstring) (useCache : bool)
  : M Result :=
  try_catch
    (match bookId with
     | None | Some [] => mret (failure (lit "ID de libro es requerido"))
     | Some id =>
         let cacheKey := lit "book_" ++ id in
         hit ← cache_hit useCache cacheKey;
         if hit : bool then from_cache cacheKey
         else
           response ← makeRequest GET (lit "/books" ++ lit "/" ++ id) None;
           match response with
           | RequestFailed message => mret (failure message)
           | RequestOk response_data =>
               transformedBook ← transformBookData response_data;
               (if useCache then setCache cacheKey (Book transformedBook)
                else mret tt);;
               mret {| success := true;
                       result_data := Some (Book transformedBook);
                       totalItems := None;
                       fromCache := Some false; error := None |}
           end
     end)
    (fun error => mret (failure (lit "Error obteniendo detalles del libro"))).

(** [new BooksApiService()], in front of a given clock and remote end:
    the constants of [BOOKS_API], an empty cache, no user. *)
Definition new_service (clock : nat -> Z) (remote : Request -> FetchOutcome)
  : World :=
  {| cache := ∅;
     cacheTimeout := 5 * 60 * 1000;
     maxResults := 20;
     timeout := 10000;
     baseURL := lit "https://reactnd-books-api.udacity.com";
     userEmail := None;
     clock := clock;
     ticks := 0;
     remote := remote;
     effects := [] |}.

(* ===================================================================== *)
(** ** Derived notions and sample inputs *)
(* ===================================================================== *)

(** The logical query of the specification: trimmed, and with the letters
    A-Z folded to lower case.  The service has no counterpart of the
    folding. *)
Definition fold_case (s : jsstring) : jsstring :=
  map (fun c => if (65 <=? c) && (c <=? 90) then c + 32 else c)%N s.

Definition logical_query (query : jsstring) : jsstring :=
  fold_case (trim query).

(** The raw record of the counterexample: an ISBN-10 entry listed before
    an ISBN-13 entry. *)
Definition isbn10_first : value :=
  VObject
    [(lit "id", VString (lit "x1"));
     (lit "title", VString (lit "Foo"));
     (lit "industryIdentifiers",
      VArray
        [VObject [(lit "type", VString (lit "ISBN_10"));
                  (lit "identifier", VString (lit "0306406152"))];
         VObject [(lit "type", VString (lit "ISBN_13"));
                  (lit "identifier", VString (lit "9780306406157"))]])].

(** [{ ...r, transformedAt: stamp }]. *)
Definition with_transformedAt (stamp : value) (r : BookRecord) : BookRecord :=
  {| bookId := bookId r; titulo := titulo r; autor := autor r;
     portadaUrl := portadaUrl r; imageLinks := imageLinks r;
     sinopsis := sinopsis r; anoPublicacion := anoPublicacion r;
     fechaPublicacion := fechaPublicacion r; editorial := editorial r;
     idioma := idioma r; numeroPaginas := numeroPaginas r;
     generos := generos r; categorias := categorias r; isbn := isbn r;
     industryIdentifiers := industryIdentifiers r;
     previewLink := previewLink r; infoLink := infoLink r;
     rating := rating r; ratingsCount := ratingsCount r;
     transformedAt := stamp |}.

(** Normalising the same record twice in a row. *)
Definition transform_twice (book : value)
  : M (option BookRecord * option BookRecord) :=
  first ← transformBookData book;
  second ← transformBookData book;
  mret (first, second).

(** The raw record [{ id: "x1", title: "Foo", authors: "Jane Doe" }]. *)
Definition x1_foo : value :=
  VObject [(lit "id", VString (lit "x1"));
           (lit "title", VString (lit "Foo"));
           (lit "authors", VString (lit "Jane Doe"))].

(** A raw record normalises: it has a truthy identifier and the body of
    [transformBookData] raises no exception on it. *)
Definition normalises (book : value) : Prop :=
  lacks_id book = Return false
  /\ exists fields, build_record book = Return fields.

(** [v] is an object. *)
Definition is_object (v : value) : Prop := exists fields, v = VObject fields.

(** [v] can be an element of a joined list: its conversion to a string
    does not throw (as that of a string, a number, a boolean or [null]
    never does). *)
Definition renders (v : value) : Prop :=
  exists s, join_element v = Return s.

(** The fields of a raw record on which the normalisation calls a method
    have the types the catalogue documents: [authors] is a string or a
    list of names, [industryIdentifiers] a list of objects,
    [publishedDate] a string (each of them may be absent). *)
Definition typed_fields (book : value) : Prop :=
  is_object book
  /\ (forall v, get_prop book "authors" = Return v ->
        truthy v = false \/ is_string v = true
        \/ exists l, v = VArray l /\ Forall renders l)
  /\ (forall v, get_prop book "industryIdentifiers" = Return v ->
        truthy v = false \/ exists l, v = VArray l /\ Forall is_object l)
  /\ (forall v, get_prop book "publishedDate" = Return v ->
        truthy v = false \/ is_string v = true).

(** A raw record and the record it became: same identifier. *)
Definition record_of (book : value) (r : BookRecord) : Prop :=
  get_prop book "id" = Return (bookId r).

(** A raw record without identifier: [{ title: "Bar" }]. *)
Definition no_id_record : value :=
  VObject [(lit "title", VString (lit "Bar"))].

(** A raw record with an identifier, whose [authors] is neither a string
    nor a list: [{ id: "a1", authors: 5 }]. *)
Definition numeric_authors : value :=
  VObject [(lit "id", VString (lit "a1")); (lit "authors", VNumber 5)].

(** A call of one of the three public operations. *)
Inductive Operation : Type :=
| SearchBooks (query : option jsstring) (options : SearchOptions)
| GetAllBooks (useCache : bool)
| GetBookDetails (bookId : option jsstring) (useCache : bool).

(** Performing the call. *)
Definition call (op : Operation) : M Result :=
  match op with
  | SearchBooks query options => searchBooks query options
  | GetAllBooks useCache => getAllBooks useCache
  | GetBookDetails bookId useCache => getBookDetails bookId useCache
  end.

(** Every result [m] can return satisfies [P]. *)
Definition yields (P : Result -> Prop) (m : M Result) : Prop :=
  forall w r w', m w = (Return r, w') -> P r.

(** The results of [m] never claim to come from the cache. *)
Definition fetched (m : M Result) : Prop :=
  yields (fun r => fromCache r <> Some true) m.


(** The catalogue was cached at the instant 1700000000000, and it is now
    five minutes later. *)
Definition stale_world : World :=
  with_cache
    {[ lit "all_books" := {| data := Books []; timestamp := 1700000000000 |} ]}
    (new_service (fun _ => 1700000300000) (fun _ => NetworkFailure)).

(** One hundred cached searches, stored a millisecond apart from the
    instant 1700000000000 on. *)
Definition hundred_searches : gmap jsstring CacheEntry :=
  list_to_map
    (map (fun i => (search_key (lit "dune") (Z.of_nat i),
                    {| data := Books [];
                       timestamp := 1700000000000 + Z.of_nat i |}))
         (seq 0 100)).

(** The default service holding them, five minutes after the first one
    was stored: the age of that entry is the TTL exactly, the other
    ninety-nine are younger. *)
Definition full_world : World :=
  with_cache hundred_searches
    (new_service (fun _ => 1700000300000) (fun _ => NetworkFailure)).

(** The remote end of the failing call: a 200 response whose body is a
    record without identifier. *)
Definition answers_no_id : World :=
  new_service (fun _ => 1700000000000)
    (fun _ => HttpResponse 200 (lit "OK") (Some no_id_record)).

(** A fresh entry under the key of the search for "dune" with the default
    bound. *)
Definition cached_search_world : World :=
  with_cache
    {[ search_key (lit "dune") 20 := {| data := Books []; timestamp := 0 |} ]}
    (new_service (fun _ => 1000) (fun _ => NetworkFailure)).

(** A 200 response whose JSON body is [null]. *)
Definition answers_null : World :=
  new_service (fun _ => 0) (fun _ => HttpResponse 200 (lit "OK") (Some VNull)).

(** A 200 response whose JSON body is an object without [books]. *)
Definition answers_no_books : World :=
  new_service (fun _ => 0)
    (fun _ => HttpResponse 200 (lit "OK")
                (Some (VObject [(lit "error", VString (lit "empty query"))]))).

(** [m] leaves the entries of the cache as they are. *)
Definition keeps_cache {A} (m : M A) : Prop :=
  forall w o w', m w = (o, w') -> cache w' = cache w.

(** [m] can only lose entries. *)
Definition shrinks_cache {A} (m : M A) : Prop :=
  forall w o w', m w = (o, w') -> cache w' ⊆ cache w.

(** Unless [m] returns a successful result, it adds and replaces no
    entry. *)
Definition stores_on_success_only (m : M Result) : Prop :=
  forall w o w',
    m w = (o, w') ->
    (forall r, o = Return r -> success r = false) ->
    cache w' ⊆ cache w.

(** [m] always returns a successful result. *)
Definition succeeds (m : M Result) : Prop :=
  forall w, exists r w', m w = (Return r, w') /\ success r = true.

(* ===================================================================== *)
(** ** Identity, configuration and connectivity *)
(* ===================================================================== *)

Definition with_userEmail (email : option jsstring) (w : World) : World :=
  {| cache := cache w; cacheTimeout := cacheTimeout w;
     maxResults := maxResults w; timeout := timeout w; baseURL := baseURL w;
     userEmail := email; clock := clock w; ticks := ticks w;
     remote := remote w; effects := effects w |}.

Definition with_timeout (t : Z) (w : World) : World :=
  {| cache := cache w; cacheTimeout := cacheTimeout w;
     maxResults := maxResults w; timeout := t; baseURL := baseURL w;
     userEmail := userEmail w; clock := clock w; ticks := ticks w;
     remote := remote w; effects := effects w |}.

Definition with_maxResults (n : Z) (w : World) : World :=
  {| cache := cache w; cacheTimeout := cacheTimeout w;
     maxResults := n; timeout := timeout w; baseURL := baseURL w;
     userEmail := userEmail w; clock := clock w; ticks := ticks w;
     remote := remote w; effects := effects w |}.

Definition with_cacheTimeout (t : Z) (w : World) : World :=
  {| cache := cache w; cacheTimeout := t;
     maxResults := maxResults w; timeout := timeout w; baseURL := baseURL w;
     userEmail := userEmail w; clock := clock w; ticks := ticks w;
     remote := remote w; effects := effects w |}.

(** [setUserEmail(email)], [email] a string or [null]. *)
Definition setUserEmail (email : option jsstring) : M unit :=
  fun w => (Return tt, with_userEmail email w).

(** [clearAuthorization()]. *)
Definition clearAuthorization : M unit :=
  fun w => (Return tt, with_userEmail None w).

(** [BOOKS_API.ENDPOINTS]. *)
Record Endpoints : Type := {
  SEARCH : jsstring;
  GET_BOOK : jsstring;
  GET_ALL : jsstring
}.

Definition endpoints : Endpoints :=
  {| SEARCH := lit "/search"; GET_BOOK := lit "/books";
     GET_ALL := lit "/books" |}.

(** The object [getConfiguration] returns. *)
Record Configuration : Type := {
  cfg_baseURL : jsstring;
  cfg_endpoints : Endpoints;
  cfg_timeout : Z;
  cfg_maxResults : Z;
  cfg_cacheTimeout : Z;
  cfg_cacheSize : Z
}.

(** [getConfiguration()]. *)
Definition getConfiguration : M Configuration :=
  base ← gets baseURL;
  t ← gets timeout;
  n ← gets maxResults;
  ttl ← gets cacheTimeout;
  size ← cache_size;
  mret {| cfg_baseURL := base; cfg_endpoints := endpoints; cfg_timeout := t;
          cfg_maxResults := n; cfg_cacheTimeout := ttl;
          cfg_cacheSize := size |}.

(** The argument of [updateConfiguration]: numbers, [None] for a property
    the object does not have. *)
Record ConfigUpdate : Type := {
  new_timeout : option Z;
  new_maxResults : option Z;
  new_cacheTimeout : option Z
}.

(** [if (config.field) this.field = config.field]: a missing property and
    the number 0 are falsy. *)
Definition assign_if_truthy (field : option Z) (assign : Z -> World -> World)
  : M unit :=
  match field with
  | Some v => if negb (v =? 0) then fun w => (Return tt, assign v w)
              else mret tt
  | None => mret tt
  end.

(** [updateConfiguration(config)]; its log line calls
    [getConfiguration]. *)
Definition updateConfiguration (config : ConfigUpdate) : M unit :=
  assign_if_truthy (new_timeout config) with_timeout;;
  assign_if_truthy (new_maxResults config) with_maxResults;;
  assign_if_truthy (new_cacheTimeout config) with_cacheTimeout;;
  logged ← getConfiguration;
  mret tt.

(** What [testConnection] returns: [{ success: true, message }] or
    [{ success: false, error }]. *)
Record ConnectionResult : Type := {
  conn_success : bool;
  conn_message : option jsstring;
  conn_error : option jsstring
}.

(** [testConnection()]. *)
Definition testConnection : M ConnectionResult :=
  try_catch
    (response ← makeRequest GET (GET_ALL endpoints ++ lit "?maxResults=1")
                  None;
     match response with
     | RequestOk _ =>
         mret {| conn_success := true;
                 conn_message :=
                   Some (lit "Conexi" ++ [243%N] ++ lit "n exitosa");
                 conn_error := None |}
     | RequestFailed message =>
         mret {| conn_success := false; conn_message := None;
                 conn_error := Some message |}
     end)
    (fun error =>
       mret {| conn_success := false; conn_message := None;
               conn_error := Some (lit "Error de conectividad") |}).

(** [handleRefresh] of the store screen, as far as the books service goes:
    [clearAllCache()], then the catalogue is loaded with
    [getAllBooks(true)]. *)
Definition refresh_catalogue : M Result :=
  clearAllCache;; getAllBooks true.

(** The part of the world that only [setUserEmail], [clearAuthorization]
    and [updateConfiguration] are meant to change, and the surroundings. *)
Definition same_setup (w w' : World) : Prop :=
  cacheTimeout w' = cacheTimeout w
  /\ maxResults w' = maxResults w
  /\ timeout w' = timeout w
  /\ baseURL w' = baseURL w
  /\ userEmail w' = userEmail w
  /\ clock w' = clock w
  /\ remote w' = remote w.

(** The [Authorization] header for the user of [w]: the e-mail when one is
    set and not empty. *)
Definition authorization_of (w : World) : option jsstring :=
  match userEmail w with
  | Some (c :: e) => Some (c :: e)
  | _ => None
  end.

(** [req] is a request of the service in [w]: under its base URL, with its
    user's [Authorization] header. *)
Definition sent_by (w : World) (req : Request) : Prop :=
  authorization req = authorization_of w
  /\ exists endpoint, url req = baseURL w ++ endpoint.

Definition is_fetch (e : Effect) : bool :=
  match e with Fetch _ => true | _ => false end.

(** Number of requests in a log. *)
Definition fetches (log : list Effect) : nat :=
  length (List.filter is_fetch log).

(** From [w] to [w']: the setup is the same, the clock was only read, the
    log only grew, and by requests of the service. *)
Definition advances (w w' : World) : Prop :=
  same_setup w w'
  /\ (ticks w <= ticks w')%nat
  /\ exists later,
       effects w' = later ++ effects w
       /\ forall req, In (Fetch req) later -> sent_by w req.

(** From [w] to [w']: the cache was neither read nor written; the log
    grew by requests only. *)
Definition bypasses_cache (w w' : World) : Prop :=
  cache w' = cache w
  /\ exists later,
       effects w' = later ++ effects w
       /\ Forall (fun e => is_fetch e = true) later.

(** Every run of [m] relates the world it starts from and the one it ends
    in by [R], whether it returns or throws. *)
Definition respects (R : World -> World -> Prop) {A} (m : M A) : Prop :=
  forall w o w', m w = (o, w') -> R w w'.

(** From [w] to [w']: the log grew, and by no request. *)
Definition quiet (w w' : World) : Prop :=
  exists later, effects w' = later ++ effects w /\ fetches later = 0%nat.

(** Every run of [m] sends exactly one request. *)
Definition sends_one {A} (m : M A) : Prop :=
  forall w o w',
    m w = (o, w') ->
    exists later, effects w' = later ++ effects w /\ fetches later = 1%nat.

(** The requests of [m] match what its result says: at most one is sent,
    none for a result served from the cache, one for a result marked as
    fetched. *)
Definition accounted (m : M Result) : Prop :=
  forall w o w',
    m w = (o, w') ->
    exists later,
      effects w' = later ++ effects w
      /\ (fetches later <= 1)%nat
      /\ forall r, o = Return r ->
           (fromCache r = Some true -> fetches later = 0%nat)
           /\ (fromCache r = Some false -> fetches later = 1%nat).

(** The key under which a call looks its answer up and stores it: none
    when the call is rejected or does not use the cache. *)
Definition cached_under (w : World) (op : Operation) : option jsstring :=
  match op with
  | SearchBooks (Some q) options =>
      if query_rejected (Some q) then None
      else if default true (opt_useCache options)
           then Some (searchCacheKey w q options)
           else None
  | GetAllBooks true => Some (lit "all_books")
  | GetBookDetails (Some (c :: id)) true => Some (lit "book_" ++ c :: id)
  | _ => None
  end.

(** A call that does not use the cache. *)
Definition without_cache (op : Operation) : Prop :=
  match op with
  | SearchBooks _ options => opt_useCache options = Some false
  | GetAllBooks useCache => useCache = false
  | GetBookDetails _ useCache => useCache = false
  end.

(** The answer served from the cache entry [e]. *)
Definition served (e : CacheEntry) : Result :=
  {| success := true; result_data := Some (data e); totalItems := None;
     fromCache := Some true; error := None |}.

(** [v] is [null] or truthy: never [undefined], [""], [0] or [false]. *)
Definition null_or_truthy (v : value) : Prop := v = VNull \/ truthy v = true.

(** [s] holds four consecutive decimal digits somewhere. *)
Definition has_year (s : jsstring) : Prop :=
  exists pre a b c d post,
    s = pre ++ a :: b :: c :: d :: post
    /\ is_digit a && is_digit b && is_digit c && is_digit d = true.

(** A raw record normalises, as a test. *)
Definition normalisesb (book : value) : bool :=
  match lacks_id book, build_record book with
  | Return false, Return _ => true
  | _, _ => false
  end.

(** The readings of the clock taken from world [w] on, up to the one a
    call starting in [w'] takes first, lie within one TTL. *)
Definition within_ttl (w w' : World) : Prop :=
  forall i j, (ticks w <= i)%nat -> (i <= j)%nat -> (j <= ticks w')%nat ->
              clock w j - clock w i < cacheTimeout w.

(** The request [makeRequest] builds in [w]. *)
Definition request_of (w : World) (method : Method) (endpoint : jsstring)
    (body : option SearchBody) : Request :=
  {| method := method; url := baseURL w ++ endpoint;
     authorization := authorization_of w; body := body |}.

(** The setting after [if (config.field) this.field = config.field]. *)
Definition effective (field : option Z) (old : Z) : Z :=
  match field with
  | Some v => if v =? 0 then old else v
  | None => old
  end.

(** The first truthy value of a list, [null] when there is none:
    [a || b || ... || null]. *)
Fixpoint first_truthy (candidates : list value) : value :=
  match candidates with
  | [] => VNull
  | v :: rest => if truthy v then v else first_truthy rest
  end.

(* ===================================================================== *)
(** ** The service in use *)
(* ===================================================================== *)

(** The remote end answers differently from now on. *)
Definition with_remote (answers : Request -> FetchOutcome) (w : World)
  : World :=
  {| cache := cache w; cacheTimeout := cacheTimeout w;
     maxResults := maxResults w; timeout := timeout w; baseURL := baseURL w;
     userEmail := userEmail w; clock := clock w; ticks := ticks w;
     remote := answers; effects := effects w |}.

(** A call of a method of the service from outside.  Every method of the
    class is there, except [extractYear], which neither reads nor writes
    the instance, and [setCache], the one method that writes the cache:
    the service calls it itself, with what it fetched and normalised, and
    no code of the application calls it. *)
Inductive Invocation : Type :=
| Operate (op : Operation)
| SetUserEmail (email : option jsstring)
| ClearAuthorization
| MakeRequest (method : Method) (endpoint : jsstring)
    (body : option SearchBody)
| TransformBooksData (books : value)
| TransformBookData (book : value)
| IsValidCache (key : jsstring)
| ClearOldCache
| ClearAllCache
| GetCacheStats
| GetConfiguration
| UpdateConfiguration (config : ConfigUpdate)
| TestConnection.

(** The state of the service after the call. *)
Definition invoke (c : Invocation) (w : World) : World :=
  match c with
  | Operate op => (call op w).2
  | SetUserEmail email => (setUserEmail email w).2
  | ClearAuthorization => (clearAuthorization w).2
  | MakeRequest method endpoint body => (makeRequest method endpoint body w).2
  | TransformBooksData books => (transformBooksData books w).2
  | TransformBookData book => (transformBookData book w).2
  | IsValidCache key => (isValidCache key w).2
  | ClearOldCache => (clearOldCache w).2
  | ClearAllCache => (clearAllCache w).2
  | GetCacheStats => (getCacheStats w).2
  | GetConfiguration => (getConfiguration w).2
  | UpdateConfiguration config => (updateConfiguration config w).2
  | TestConnection => (testConnection w).2
  end.

(** The states of a service in use: it was constructed, in front of some
    clock and some remote end, and its methods were called, any number of
    times and in any order, while the remote end may have changed its
    answers. *)
Inductive reachable : World -> Prop :=
| reach_new (clock : nat -> Z) (remote : Request -> FetchOutcome) :
    reachable (new_service clock remote)
| reach_invoke (w : World) (c : Invocation) :
    reachable w -> reachable (invoke c w)
| reach_network (w : World) (answers : Request -> FetchOutcome) :
    reachable w -> reachable (with_remote answers w).

(** An entry that holds a list of records, or sits under the key of a
    single book. *)
Definition list_or_book (key : jsstring) (e : CacheEntry) : Prop :=
  (exists id, key = lit "book_" ++ id) \/ exists l, data e = Books l.

(** Outside the keys of single books, the cache holds lists of records
    only. *)
Definition holds_lists (w : World) : Prop :=
  forall key e, cache w !! key = Some e -> list_or_book key e.

(** From [w] to [w']: the cache still holds lists only, if it did. *)
Definition keeps_lists (w w' : World) : Prop :=
  holds_lists w -> holds_lists w'.

(** The state after a first search for "dune", which the remote end
    answered with no books. *)
Definition searched_once : World :=
  invoke (Operate (SearchBooks (Some (lit "dune"))
                     {| opt_maxResults := None; opt_useCache := None |}))
    answers_no_books.

(* ===================================================================== *)
(** * Properties *)
(* ===================================================================== *)

(** ** The model on the examples of the specification *)

Example toISOString_2023 :
  toISOString 1700000000000 = lit "2023-11-14T22:13:20.000Z".
Proof. reflexivity. Qed.

Example toISOString_before_epoch :
  toISOString (-1) = lit "1969-12-31T23:59:59.999Z".
Proof. reflexivity. Qed.

Example extractYear_free_text :
  extractYear (VString (lit "March 2021-05")) = Return (VNumber 2021)
  /\ extractYear (VString (lit "n.d.")) = Return VNull
  /\ extractYear (VNumber 2021) = Throw TypeError.
Proof. repeat split. Qed.

Example search_key_dune : search_key (lit "dune") 5 = lit "search_dune_5".
Proof. reflexivity. Qed.

(** An author that is an object joins as [[object Object]], unless it has
    a property called [toString]: then [join] throws, and the record is
    dropped. *)
Example author_objects :
  let raw := fun author =>
    VObject [(lit "id", VString (lit "a1")); (lit "authors", VArray [author])]
  in
  let w := new_service (fun _ => 0) (fun _ => NetworkFailure) in
  (exists r,
      (transformBookData (raw (VObject [(lit "name", VString (lit "Ann"))]))
         w).1 = Return (Some r)
      /\ autor r = VString (lit "[object Object]"))
  /\ (transformBookData (raw (VObject [(lit "toString", VNumber 1)])) w).1
     = Return None.
Proof. split; [eexists; split; reflexivity | reflexivity]. Qed.

(** The scenario of the specification: the raw record with one ISBN-13
    identifier. *)
Example normalise_x1 :
  let raw :=
    VObject
      [(lit "id", VString (lit "x1"));
       (lit "title", VString (lit "Foo"));
       (lit "authors", VString (lit "Jane Doe"));
       (lit "industryIdentifiers",
        VArray [VObject [(lit "type", VString (lit "ISBN_13"));
                         (lit "identifier",
                          VString (lit "9780000000000"))]])] in
  exists r,
    (transformBookData raw
       (new_service (fun _ => 0) (fun _ => NetworkFailure))).1
    = Return (Some r)
    /\ bookId r = VString (lit "x1")
    /\ titulo r = VString (lit "Foo")
    /\ autor r = VString (lit "Jane Doe")
    /\ isbn r = VString (lit "9780000000000").
Proof. eexists. split; [reflexivity|]. repeat split. Qed.

(** ** Running computations *)

Lemma bind_Return {A B} (m : outcome A) (f : A -> outcome B) (b : B) :
  m ≫= f = Return b -> exists a, m = Return a /\ f a = Return b.
Proof. destruct m; simpl; [eauto | discriminate]. Qed.

(** Running a bind whose first computation returns. *)
Lemma bindM {A B} (m : M A) (k : A -> M B) (w w1 : World) (a : A) :
  m w = (Return a, w1) -> (m ≫= k) w = k a w1.
Proof. intros H. unfold mbind, M_bind. now rewrite H. Qed.

Lemma yields_ret (P : Result -> Prop) (r : Result) :
  P r -> yields P (mret r).
Proof. intros H w r' w' [= <- _]. exact H. Qed.

Lemma yields_bind {A} (P : Result -> Prop) (m : M A) (k : A -> M Result) :
  (forall a, yields P (k a)) -> yields P (m ≫= k).
Proof.
  intros Hk w r w'. unfold mbind, M_bind.
  destruct (m w) as [[a|e] w1]; [apply Hk | discriminate].
Qed.

Lemma yields_try_catch (P : Result -> Prop) (body : M Result)
    (handler : exn -> M Result) :
  yields P body -> (forall e, yields P (handler e)) ->
  yields P (try_catch body handler).
Proof.
  intros Hb Hh w r w'. unfold try_catch.
  destruct (body w) as [[a|e] w1] eqn:Hbody.
  - intros [= <- _]. exact (Hb _ _ _ Hbody).
  - apply Hh.
Qed.

Lemma yields_from_cache (P : Result -> Prop) (key : jsstring) :
  (forall d, P {| success := true; result_data := Some d; totalItems := None;
                  fromCache := Some true; error := None |}) ->
  yields P (from_cache key).
Proof.
  intros H w r w'. unfold from_cache, cache_get, mbind, M_bind. simpl.
  destruct (cache w !! key) as [e|]; [|discriminate].
  intros [= <- _]. apply H.
Qed.

Lemma keeps_cache_ret {A} (a : A) : keeps_cache (mret a).
Proof. intros w o w' [= _ <-]. reflexivity. Qed.

Lemma keeps_cache_lift {A} (o : outcome A) : keeps_cache (lift o).
Proof. intros w o' w' [= _ <-]. reflexivity. Qed.

Lemma keeps_cache_gets {A} (f : World -> A) : keeps_cache (gets f).
Proof. intros w o w' [= _ <-]. reflexivity. Qed.

Lemma keeps_cache_bind {A B} (m : M A) (k : A -> M B) :
  keeps_cache m -> (forall a, keeps_cache (k a)) -> keeps_cache (m ≫= k).
Proof.
  intros Hm Hk w o w'. unfold mbind, M_bind.
  destruct (m w) as [[a|e] w1] eqn:Hmw.
  - intros H. rewrite (Hk a _ _ _ H). exact (Hm _ _ _ Hmw).
  - intros [= _ <-]. exact (Hm _ _ _ Hmw).
Qed.

Lemma keeps_shrinks {A} (m : M A) : keeps_cache m -> shrinks_cache m.
Proof. intros H w o w' Hm. now rewrite (H _ _ _ Hm). Qed.

(** [makeRequest] does not touch the cache. *)
Lemma keeps_cache_makeRequest (method : Method) (endpoint : jsstring)
    (body : option SearchBody) :
  keeps_cache (makeRequest method endpoint body).
Proof.
  intros w o w'. unfold makeRequest, fetch, mbind, M_bind, gets. simpl.
  destruct (remote w _) as [| |status text [parsed|]]; simpl;
    try destruct (negb (response_ok status)); now intros [= _ <-].
Qed.

(** ** Cache keys *)

Lemma digits_of_uint_head (u : Decimal.uint) (c : N) (rest : jsstring) :
  digits_of_uint u = c :: rest -> (48 <= c <= 57)%N.
Proof. destruct u; simpl; intros H; inversion H; lia. Qed.

Lemma digits_of_uint_inj (u u' : Decimal.uint) :
  digits_of_uint u = digits_of_uint u' -> u = u'.
Proof.
  revert u'.
  induction u as [|u IH|u IH|u IH|u IH|u IH|u IH|u IH|u IH|u IH|u IH];
    intros [|v|v|v|v|v|v|v|v|v|v]; simpl; intros H;
    try discriminate H; try reflexivity;
    injection H as H; f_equal; exact (IH _ H).
Qed.

(** Distinct integers have distinct decimal renderings. *)
Lemma number_to_string_inj (z z' : Z) :
  number_to_string z = number_to_string z' -> z = z'.
Proof.
  unfold number_to_string. intros H. apply DecimalZ.to_int_inj.
  destruct (Z.to_int z) as [u|u], (Z.to_int z') as [u'|u'].
  - f_equal. now apply digits_of_uint_inj.
  - apply digits_of_uint_head in H. lia.
  - symmetry in H. apply digits_of_uint_head in H. lia.
  - injection H as H. f_equal. now apply digits_of_uint_inj.
Qed.

Lemma search_key_inj_bound (q : jsstring) (m m' : Z) :
  search_key q m = search_key q m' -> m = m'.
Proof.
  unfold search_key. intros H.
  do 3 apply app_inv_head in H.
  now apply number_to_string_inj.
Qed.

(** C1, as stated, fails: "Dune" and "dune" are the same logical query
    (equal after trimming and case folding) with the same bound, and
    [searchBooks] derives different keys for them. *)
Lemma C1_case_counterexample :
  let w := new_service (fun _ => 0) (fun _ => NetworkFailure) in
  let o := {| opt_maxResults := Some 5; opt_useCache := None |} in
  logical_query (lit "Dune") = logical_query (lit "dune")
  /\ default (maxResults w) (opt_maxResults o) = 5
  /\ searchCacheKey w (lit "Dune") o <> searchCacheKey w (lit "dune") o.
Proof. vm_compute. repeat split; discriminate. Qed.

(** C1 (amended): two search requests whose queries are equal after
    trimming (letter case is kept as typed) get the same cache key exactly
    when their result-size bounds are equal: equal bounds give the same
    key, and requests that differ only in the bound get different keys. *)
Theorem C1_key_determinism (w : World) (q1 q2 : jsstring)
    (o1 o2 : SearchOptions) :
  trim q1 = trim q2 ->
  (searchCacheKey w q1 o1 = searchCacheKey w q2 o2
   <-> default (maxResults w) (opt_maxResults o1)
       = default (maxResults w) (opt_maxResults o2)).
Proof.
  intros Hq. unfold searchCacheKey. rewrite Hq. split.
  - apply search_key_inj_bound.
  - intros ->. reflexivity.
Qed.

Lemma C1_key_determinism_witness :
  let w := new_service (fun _ => 0) (fun _ => NetworkFailure) in
  let o5 := {| opt_maxResults := Some 5; opt_useCache := None |} in
  let o9 := {| opt_maxResults := Some 9; opt_useCache := Some false |} in
  searchCacheKey w (lit "  dune ") o5 = searchCacheKey w (lit "dune") o5
  /\ searchCacheKey w (lit "dune") o5 <> searchCacheKey w (lit "dune") o9.
Proof.
  intros w o5 o9. split.
  - apply (C1_key_determinism w (lit "  dune ") (lit "dune") o5 o5);
      reflexivity.
  - intros H.
    apply (C1_key_determinism w (lit "dune") (lit "dune") o5 o9) in H;
      [discriminate H | reflexivity].
Defined.

(** ** Validation *)

Lemma query_rejected_short (query : option jsstring) :
  (forall q, query = Some q -> (length (trim q) < 2)%nat) ->
  query_rejected query = true.
Proof.
  intros H. destruct query as [[|c q]|]; try reflexivity.
  simpl. specialize (H _ eq_refl). apply Z.ltb_lt. lia.
Qed.

(** C9: a query whose trimmed length is below 2 (the empty string and an
    absent query included) is answered at once with the validation error:
    the world is left as it was, so no request was sent and the cache was
    neither read nor written. *)
Theorem C9_validation_short_circuit (query : option jsstring)
    (options : SearchOptions) (w : World) :
  (forall q, query = Some q -> (length (trim q) < 2)%nat) ->
  exists r,
    searchBooks query options w = (Return r, w)
    /\ success r = false
    /\ error r = Some msg_validation
    /\ result_data r = None.
Proof.
  intros H. exists (failure msg_validation).
  unfold searchBooks, try_catch.
  rewrite (query_rejected_short query H). repeat split.
Qed.

Lemma C9_validation_short_circuit_witness :
  let w := new_service (fun _ => 0) (fun _ => NetworkFailure) in
  exists r,
    searchBooks (Some (lit "a")) {| opt_maxResults := None;
                                    opt_useCache := None |} w
    = (Return r, w)
    /\ success r = false
    /\ error r = Some msg_validation
    /\ result_data r = None.
Proof.
  intros w. apply C9_validation_short_circuit.
  intros q Hq. injection Hq as <-. vm_compute. lia.
Defined.

(** ** Normalisation of one record *)

Lemma lacks_id_returns (book : value) : exists b, lacks_id book = Return b.
Proof.
  unfold lacks_id. destruct (truthy book) eqn:Ht; simpl; [|eauto].
  destruct book; simpl in *; try discriminate; eauto.
Qed.

(** [transformBookData] run in a world: a record without identifier and a
    record whose normalisation throws both give [null] and leave the clock
    alone; any other record is built and stamped with the next reading of
    the clock. *)
Lemma transformBookData_run (book : value) (w : World) :
  transformBookData book w =
  match lacks_id book with
  | Return false =>
      match build_record book with
      | Return fields =>
          (Return (Some (fields (VString (toISOString (clock w (ticks w)))))),
           with_ticks (S (ticks w)) w)
      | Throw _ => (Return None, w)
      end
  | Return true => (Return None, w)
  | Throw e => (Throw e, w)
  end.
Proof.
  unfold transformBookData, mbind, M_bind, lift, try_catch.
  destruct (lacks_id book) as [[|]|]; try reflexivity.
  destruct (build_record book); reflexivity.
Qed.

Lemma transformBookData_returns (book : value) (w : World) :
  exists o w', transformBookData book w = (Return o, w').
Proof.
  rewrite transformBookData_run.
  destruct (lacks_id_returns book) as [[|] ->]; eauto.
  destruct (build_record book); eauto.
Qed.

Lemma build_record_isbn (book : value) (fields : value -> BookRecord) :
  build_record book = Return fields ->
  exists ids found ident,
    prop_or book "industryIdentifiers" (VArray []) = Return ids
    /\ array_find ids is_isbn_entry = Return found
    /\ get_prop_opt found "identifier" = Return ident
    /\ forall stamp, industryIdentifiers (fields stamp) = ids
                     /\ isbn (fields stamp) = js_or ident VNull.
Proof.
  unfold build_record. intros H.
  repeat (apply bind_Return in H as (? & ? & H)).
  injection H as <-. eauto 10.
Qed.

Lemma build_record_bookId (book : value) (fields : value -> BookRecord) :
  build_record book = Return fields ->
  exists id, get_prop book "id" = Return id
             /\ forall stamp, bookId (fields stamp) = id.
Proof.
  unfold build_record. intros H.
  repeat (apply bind_Return in H as (? & ? & H)).
  injection H as <-. eauto.
Qed.

Lemma build_record_stamp (book : value) (fields : value -> BookRecord) :
  build_record book = Return fields ->
  forall stamp stamp', with_transformedAt stamp' (fields stamp) = fields stamp'.
Proof.
  unfold build_record. intros H.
  repeat (apply bind_Return in H as (? & ? & H)).
  injection H as <-. reflexivity.
Qed.

Lemma js_find_first (pre post : list value) (e : value) :
  Forall (fun x => is_isbn_entry x = Return false) pre ->
  is_isbn_entry e = Return true ->
  js_find is_isbn_entry (pre ++ e :: post) = Return e.
Proof.
  intros Hpre He. induction Hpre as [|x pre Hx _ IH]; simpl.
  - now rewrite He.
  - now rewrite Hx.
Qed.

Lemma js_find_none (items : list value) :
  Forall (fun x => is_isbn_entry x = Return false) items ->
  js_find is_isbn_entry items = Return VUndefined.
Proof.
  induction 1 as [|x items Hx _ IH]; simpl; [reflexivity|].
  now rewrite Hx.
Qed.

Lemma is_isbn_entry_object (e : value) :
  is_isbn_entry e = Return true -> exists fields, e = VObject fields.
Proof. destruct e; try discriminate; eauto. Qed.

(** C3, as stated, fails: with an ISBN-10 entry listed before an ISBN-13
    entry, the normalised [isbn] is the ISBN-10 identifier although an
    ISBN-13 entry is present. *)
Lemma C3_isbn13_not_preferred :
  let w := new_service (fun _ => 0) (fun _ => NetworkFailure) in
  exists r,
    (transformBookData isbn10_first w).1 = Return (Some r)
    /\ isbn r = VString (lit "0306406152")
    /\ isbn r <> VString (lit "9780306406157").
Proof.
  eexists. split; [vm_compute; reflexivity|]. split; [reflexivity|].
  vm_compute. discriminate.
Qed.

(** C3 (amended): for every raw record that normalises, the list
    [book.industryIdentifiers || []] of the raw record is kept as the
    [industryIdentifiers] of the normalised one, and [isbn] is the
    identifier of the first entry of that list, in list order, whose type
    is ISBN_13 or ISBN_10, whichever of the two comes first ([null] when
    that entry has no truthy identifier), and [null] when no entry has
    either type. *)
Theorem C3_isbn_first_match (book : value) (w w' : World) (r : BookRecord) :
  transformBookData book w = (Return (Some r), w') ->
  exists items,
    prop_or book "industryIdentifiers" (VArray []) = Return (VArray items)
    /\ industryIdentifiers r = VArray items
    /\ (forall pre e post,
          items = pre ++ e :: post ->
          Forall (fun x => is_isbn_entry x = Return false) pre ->
          is_isbn_entry e = Return true ->
          exists identifier,
            get_prop e "identifier" = Return identifier
            /\ isbn r = js_or identifier VNull)
    /\ (Forall (fun x => is_isbn_entry x = Return false) items ->
        isbn r = VNull).
Proof.
  rewrite transformBookData_run. intros H.
  destruct (lacks_id book) as [[|]|]; try discriminate H.
  destruct (build_record book) as [fields|] eqn:Hb; try discriminate H.
  injection H as <- _.
  destruct (build_record_isbn _ _ Hb)
    as (ids & found & ident & Hraw & Hf & Hi & Hr).
  destruct ids as [| | | | |items|]; try discriminate Hf. simpl in Hf.
  exists items. destruct (Hr (VString (toISOString (clock w (ticks w)))))
    as [-> ->].
  split; [exact Hraw|]. split; [reflexivity|]. split.
  - intros pre e post -> Hpre He.
    rewrite (js_find_first pre post e Hpre He) in Hf. injection Hf as <-.
    destruct (is_isbn_entry_object e He) as [fs ->].
    exists ident. split; [exact Hi | reflexivity].
  - intros Hnone. rewrite (js_find_none items Hnone) in Hf.
    injection Hf as <-. simpl in Hi. injection Hi as <-. reflexivity.
Qed.

Lemma C3_isbn_first_match_witness :
  exists r items,
    prop_or isbn10_first "industryIdentifiers" (VArray [])
    = Return (VArray items)
    /\ industryIdentifiers r = VArray items
    /\ (forall pre e post,
          items = pre ++ e :: post ->
          Forall (fun x => is_isbn_entry x = Return false) pre ->
          is_isbn_entry e = Return true ->
          exists identifier,
            get_prop e "identifier" = Return identifier
            /\ isbn r = js_or identifier VNull)
    /\ (Forall (fun x => is_isbn_entry x = Return false) items ->
        isbn r = VNull).
Proof.
  eexists.
  eapply (C3_isbn_first_match isbn10_first
            (new_service (fun _ => 0) (fun _ => NetworkFailure))).
  reflexivity.
Defined.

(** C6, as stated, fails: two normalisations of one raw record, a
    millisecond apart, differ in their [transformedAt] field. *)
Lemma C6_timestamps_differ :
  let w := new_service (fun n => 1700000000000 + Z.of_nat n)
                       (fun _ => NetworkFailure) in
  exists r1 r2,
    (transform_twice x1_foo w).1 = Return (Some r1, Some r2)
    /\ transformedAt r1 = VString (lit "2023-11-14T22:13:20.000Z")
    /\ transformedAt r2 = VString (lit "2023-11-14T22:13:20.001Z")
    /\ r1 <> r2.
Proof.
  do 2 eexists. split; [vm_compute; reflexivity|].
  split; [reflexivity|]. split; [reflexivity|].
  intros H. apply (f_equal transformedAt) in H. vm_compute in H.
  discriminate H.
Qed.

(** C6 (amended): two normalisations of the same raw record agree on
    whether they yield a record and on every field of it other than
    [transformedAt], which holds the time of the normalisation; they are
    equal when the clock reads the same both times. *)
Theorem C6_normalisation_repeatable (book : value) (w1 w1' w2 w2' : World)
    (o1 o2 : option BookRecord) :
  transformBookData book w1 = (Return o1, w1') ->
  transformBookData book w2 = (Return o2, w2') ->
  with_transformedAt VUndefined <$> o1 = with_transformedAt VUndefined <$> o2
  /\ (clock w1 (ticks w1) = clock w2 (ticks w2) -> o1 = o2).
Proof.
  rewrite !transformBookData_run.
  destruct (lacks_id book) as [[|]|]; [| |discriminate].
  - intros [= <- _] [= <- _]. split; reflexivity.
  - destruct (build_record book) as [fields|] eqn:Hb.
    + intros [= <- _] [= <- _]. split.
      * simpl. now rewrite !(build_record_stamp _ _ Hb).
      * intros ->. reflexivity.
    + intros [= <- _] [= <- _]. split; reflexivity.
Qed.

Lemma C6_normalisation_repeatable_witness :
  let w := new_service (fun n => 1700000000000 + Z.of_nat n)
                       (fun _ => NetworkFailure) in
  exists o1 o2 : option BookRecord,
    with_transformedAt VUndefined <$> o1
    = with_transformedAt VUndefined <$> o2
    /\ (clock w (ticks w) = clock (with_ticks 1 w) (ticks (with_ticks 1 w))
        -> o1 = o2).
Proof.
  intros w. do 2 eexists.
  eapply (C6_normalisation_repeatable x1_foo w _ (with_ticks 1 w) _);
    reflexivity.
Defined.

(** ** Normalisation of a batch *)

Lemma transformBookData_normalises (book : value) (w : World) :
  normalises book ->
  exists r, transformBookData book w
            = (Return (Some r), with_ticks (S (ticks w)) w)
            /\ record_of book r.
Proof.
  intros [Hid [fields Hb]]. rewrite transformBookData_run, Hid, Hb.
  eexists. split; [reflexivity|].
  destruct (build_record_bookId _ _ Hb) as (id & Hget & Hbook).
  unfold record_of. now rewrite Hbook.
Qed.

Lemma js_find_objects (l : list value) :
  Forall is_object l ->
  exists found, js_find is_isbn_entry l = Return found
                /\ (found = VUndefined \/ is_object found).
Proof.
  induction 1 as [|x l [fs ->] _ IH]; [simpl; eauto|].
  change (js_find is_isbn_entry (VObject fs :: l))
    with (b ← is_isbn_entry (VObject fs);
          if b : bool then Return (VObject fs) else js_find is_isbn_entry l).
  destruct (is_isbn_entry (VObject fs)) as [[|]|e] eqn:E; simpl.
  - eexists. split; [reflexivity|]. right. now exists fs.
  - exact IH.
  - unfold is_isbn_entry in E. simpl in E.
    destruct (strict_eq_lit _ "ISBN_13"); discriminate E.
Qed.

Lemma get_prop_or_object (v : value) (name : string) :
  (exists u, v = js_or u (VObject [])) -> exists x, get_prop v name = Return x.
Proof.
  intros [u ->]. unfold js_or. destruct (truthy u) eqn:Ht; [|simpl; eauto].
  destruct u; try discriminate Ht; simpl; eauto.
Qed.

Lemma map_outcome_returns {A B} (f : A -> outcome B) (l : list A) :
  Forall (fun x => exists y, f x = Return y) l ->
  exists ys, map_outcome f l = Return ys.
Proof.
  induction 1 as [|x l [y Hy] _ [ys IH]]; simpl; [eauto|].
  rewrite Hy, IH. eauto.
Qed.

(** No internal error on a record with an identifier whose fields have
    the documented types: such a record normalises. *)
Lemma typed_fields_normalise (book : value) :
  lacks_id book = Return false -> typed_fields book -> normalises book.
Proof.
  intros Hid ([fields ->] & Hauthors & Hids & Hdate). split; [exact Hid|].
  unfold build_record, prop_or. simpl get_prop in *.
  assert (Hjoin : exists joined,
             js_join
               (wrap_string
                  (js_or (own_property fields (lit "authors")) (VArray [])))
               (lit ", ") = Return joined).
  { destruct (Hauthors _ eq_refl) as [Hf|[Hs|(l & Hl & Hall)]].
    - unfold js_or. rewrite Hf. simpl. eauto.
    - destruct (own_property fields (lit "authors")) eqn:E;
        try discriminate Hs.
      unfold js_or. destruct (truthy (VString s)); simpl; eauto.
    - rewrite Hl. simpl.
      destruct (map_outcome_returns join_element l Hall) as (parts & ->).
      simpl. eauto. }
  destruct Hjoin as (joined & Hjoin).
  assert (Hfind : exists found ident,
             array_find
               (js_or (own_property fields (lit "industryIdentifiers"))
                  (VArray []))
               is_isbn_entry = Return found
             /\ get_prop_opt found "identifier" = Return ident).
  { destruct (Hids _ eq_refl) as [Hf|(l & Hl & Hall)].
    - unfold js_or. rewrite Hf. simpl. eauto.
    - rewrite Hl. simpl.
      destruct (js_find_objects l Hall) as (found & -> & [->|[fs ->]]);
        simpl; eauto. }
  destruct Hfind as (found & ident & Hfind & Hident).
  assert (Hyear : exists y,
             extractYear (own_property fields (lit "publishedDate"))
             = Return y).
  { unfold extractYear. destruct (Hdate _ eq_refl) as [Hf|Hs].
    - rewrite Hf. simpl. eauto.
    - destruct (own_property fields (lit "publishedDate"));
        try discriminate Hs.
      destruct (negb _); eauto. }
  destruct Hyear as (y & Hyear).
  simpl. rewrite Hjoin. simpl. rewrite Hfind. simpl. rewrite Hident. simpl.
  rewrite Hyear. simpl.
  set (links := js_or (own_property fields (lit "imageLinks")) (VObject [])).
  destruct (get_prop_or_object links "thumbnail") as (x1 & ->);
    [now eexists|].
  destruct (get_prop_or_object links "smallThumbnail") as (x2 & ->);
    [now eexists|].
  destruct (get_prop_or_object links "medium") as (x3 & ->); [now eexists|].
  destruct (get_prop_or_object links "large") as (x4 & ->); [now eexists|].
  simpl. eauto.
Qed.

Lemma transformBookData_lacks_id (book : value) (w : World) :
  lacks_id book = Return true ->
  transformBookData book w = (Return None, w).
Proof. intros H. now rewrite transformBookData_run, H. Qed.

Lemma map_M_cons {A B} (f : A -> M B) (x : A) (rest : list A) (w : World) :
  map_M f (x :: rest) w =
  match f x w with
  | (Return y, w1) =>
      match map_M f rest w1 with
      | (Return ys, w2) => (Return (y :: ys), w2)
      | (Throw e, w2) => (Throw e, w2)
      end
  | (Throw e, w1) => (Throw e, w1)
  end.
Proof.
  simpl. unfold mbind, M_bind. destruct (f x w) as [[y|e] w1]; [|reflexivity].
  destruct (map_M f rest w1) as [[ys|e] w2]; reflexivity.
Qed.

Lemma map_M_transform_all (items : list value) (w : World) :
  Forall normalises items ->
  exists rs w',
    map_M transformBookData items w = (Return (Some <$> rs), w')
    /\ Forall2 record_of items rs.
Proof.
  intros H. revert w. induction H as [|x items Hx _ IH]; intros w.
  - exists [], w. split; [reflexivity | constructor].
  - destruct (transformBookData_normalises x w Hx) as (r & Hr & Hid).
    destruct (IH (with_ticks (S (ticks w)) w)) as (rs & w' & Hrs & Hall).
    exists (r :: rs), w'. rewrite map_M_cons, Hr, Hrs.
    split; [reflexivity | now constructor].
Qed.

Lemma filter_Boolean_Some (rs : list BookRecord) :
  filter_Boolean (Some <$> rs) = rs.
Proof.
  induction rs as [|r rs IH]; [reflexivity|].
  change (filter_Boolean (Some <$> r :: rs))
    with (r :: filter_Boolean (Some <$> rs)).
  now rewrite IH.
Qed.

(** [transformBooksData] never throws, whatever it is given. *)
Lemma transformBooksData_returns (books : value) (w : World) :
  exists l w', transformBooksData books w = (Return l, w').
Proof.
  destruct books; simpl; eauto. unfold mbind, M_bind.
  assert (H : exists rs w', map_M transformBookData items w = (Return rs, w')).
  { revert w. induction items as [|x items IH]; intros w; [simpl; eauto|].
    rewrite map_M_cons.
    destruct (transformBookData_returns x w) as (o & w1 & ->).
    destruct (IH w1) as (rs & w2 & ->). eauto. }
  destruct H as (rs & w' & ->). eauto.
Qed.

(** C8, as stated, fails: in a batch of two records of which exactly one
    lacks its identifier, the other one (whose [authors] is a number, so
    that [join] is not a function) is dropped as well, and 0 records come
    back instead of 1. *)
Lemma C8_other_record_dropped :
  let w := new_service (fun _ => 0) (fun _ => NetworkFailure) in
  lacks_id numeric_authors = Return false
  /\ lacks_id no_id_record = Return true
  /\ (transformBooksData (VArray [numeric_authors; no_id_record]) w).1
     = Return [].
Proof. repeat split. Qed.

(** C8 (amended): in a list of N raw records where exactly one record lacks
    its identifier and every other record normalises without an internal
    error, batch normalisation does not throw and yields exactly N-1
    records: the other records, in their order. *)
Theorem C8_partial_failure_isolation (pre post : list value) (bad : value)
    (w : World) :
  lacks_id bad = Return true ->
  Forall normalises (pre ++ post) ->
  exists l w',
    transformBooksData (VArray (pre ++ bad :: post)) w = (Return l, w')
    /\ length l = (length (pre ++ bad :: post) - 1)%nat
    /\ Forall2 record_of (pre ++ post) l.
Proof.
  intros Hbad Hall. apply Forall_app in Hall as [Hpre Hpost].
  assert (Hmap : exists rs w',
             map_M transformBookData (pre ++ bad :: post) w = (Return rs, w')
             /\ Forall2 record_of (pre ++ post) (filter_Boolean rs)).
  { revert w. induction Hpre as [|x pre Hx _ IH]; intros w; simpl app.
    - destruct (map_M_transform_all post w Hpost) as (rs & w' & Hrs & H2).
      exists (None :: (Some <$> rs)), w'.
      rewrite map_M_cons, (transformBookData_lacks_id bad w Hbad), Hrs.
      split; [reflexivity|].
      change (filter_Boolean (None :: (Some <$> rs)))
        with (filter_Boolean (Some <$> rs)).
      now rewrite filter_Boolean_Some.
    - destruct (transformBookData_normalises x w Hx) as (r & Hr & Hid).
      destruct (IH (with_ticks (S (ticks w)) w)) as (rs & w' & Hrs & H2).
      exists (Some r :: rs), w'. rewrite map_M_cons, Hr, Hrs.
      split; [reflexivity|].
      change (filter_Boolean (Some r :: rs)) with (r :: filter_Boolean rs).
      now constructor. }
  destruct Hmap as (rs & w' & Hrs & H2).
  exists (filter_Boolean rs), w'. unfold transformBooksData, mbind, M_bind.
  rewrite Hrs. split; [reflexivity|]. split; [|exact H2].
  apply Forall2_length in H2. rewrite <- H2, !length_app. simpl. lia.
Qed.

Lemma C8_partial_failure_isolation_witness :
  let w := new_service (fun _ => 0) (fun _ => NetworkFailure) in
  exists l w',
    transformBooksData (VArray ([x1_foo] ++ no_id_record :: [isbn10_first])) w
    = (Return l, w')
    /\ length l = 2%nat
    /\ Forall2 record_of ([x1_foo] ++ [isbn10_first]) l.
Proof.
  intros w.
  apply (C8_partial_failure_isolation [x1_foo] [isbn10_first] no_id_record w).
  - reflexivity.
  - repeat constructor; eexists; reflexivity.
Defined.

(** ** Reads of the cache *)

Lemma fetched_ret (r : Result) : fromCache r <> Some true -> fetched (mret r).
Proof. exact (yields_ret (fun r => fromCache r <> Some true) r). Qed.

Lemma fetched_failure (message : jsstring) : fetched (mret (failure message)).
Proof. apply fetched_ret. discriminate. Qed.

Lemma fetched_bind {A} (m : M A) (k : A -> M Result) :
  (forall a, fetched (k a)) -> fetched (m ≫= k).
Proof. exact (yields_bind _ m k). Qed.

Create HintDb fetched.
#[local] Hint Resolve fetched_failure fetched_ret fetched_bind : fetched.



(** A lookup answers [true] only for an entry that is there and fresh,
    and then leaves the cache as it is. *)
Lemma cache_hit_true (useCache : bool) (key : jsstring) (w w1 : World) :
  cache_hit useCache key w = (Return true, w1) ->
  exists e, cache w !! key = Some e
            /\ clock w (ticks w) - timestamp e < cacheTimeout w
            /\ cache w1 = cache w.
Proof.
  unfold cache_hit. destruct useCache; [|discriminate].
  unfold isValidCache, cache_get, mbind, M_bind, Date_now, gets. simpl.
  destruct (cache w !! key) as [e|]; [|discriminate]. simpl.
  destruct (Z.ltb_spec (clock w (ticks w) - timestamp e) (cacheTimeout w));
    simpl.
  - intros [= <-]. eauto.
  - discriminate.
Qed.

(** A lookup of a fresh entry answers [true]; it read the clock and the
    [Map] once. *)
Lemma cache_hit_fresh (key : jsstring) (w : World) (e : CacheEntry) :
  cache w !! key = Some e ->
  clock w (ticks w) - timestamp e < cacheTimeout w ->
  cache_hit true key w
  = (Return true, with_ticks (S (ticks w)) (with_effect (CacheGet key) w)).
Proof.
  intros He Hfresh.
  unfold cache_hit, isValidCache, cache_get, mbind, M_bind, Date_now, gets.
  simpl. rewrite He. simpl.
  destruct (Z.ltb_spec (clock w (ticks w) - timestamp e) (cacheTimeout w));
    [reflexivity | lia].
Qed.

Lemma from_cache_entry (key : jsstring) (w : World) (e : CacheEntry) :
  cache w !! key = Some e ->
  from_cache key w
  = (Return {| success := true; result_data := Some (data e);
               totalItems := None; fromCache := Some true; error := None |},
     with_effect (CacheGet key) w).
Proof.
  intros H. unfold from_cache, cache_get, mbind, M_bind. simpl. now rewrite H.
Qed.





(** Fresh hit: with the cache in use, a search whose key
    ([searchCacheKey]) holds a fresh entry is answered with the data of
    that entry, marked as coming from the cache; the only effects are two
    reads of the [Map], and no request is sent. *)
Lemma searchBooks_fresh_hit (q : jsstring) (options : SearchOptions)
    (w : World) (e : CacheEntry) :
  query_rejected (Some q) = false ->
  default true (opt_useCache options) = true ->
  cache w !! searchCacheKey w q options = Some e ->
  clock w (ticks w) - timestamp e < cacheTimeout w ->
  exists w',
    searchBooks (Some q) options w
    = (Return {| success := true; result_data := Some (data e);
                 totalItems := None; fromCache := Some true;
                 error := None |}, w')
    /\ cache w' = cache w
    /\ effects w'
       = CacheGet (searchCacheKey w q options)
         :: CacheGet (searchCacheKey w q options) :: effects w.
Proof.
  intros Hq Hc He Hfresh.
  pose proof (cache_hit_fresh _ w e He Hfresh) as Hhit.
  unfold searchBooks, try_catch. rewrite Hq, Hc.
  rewrite (bindM (gets maxResults) _ w w _ eq_refl).
  unfold searchCacheKey in Hhit, He |- *. simpl default.
  rewrite (bindM _ _ w _ true Hhit).
  rewrite (from_cache_entry _ _ e) by exact He.
  eexists. split; [reflexivity|]. split; reflexivity.
Qed.



(** ** Writes to the cache *)

Lemma setCache_returns (key : jsstring) (payload : Payload) (w : World) :
  exists w', setCache key payload w = (Return tt, w').
Proof.
  unfold setCache, clearOldCache, cache_set, cache_size, cache_delete_where,
    mbind, M_bind, Date_now, gets. simpl.
  destruct (_ >? 100); simpl; eauto.
Qed.

(** What the sweep does when an insertion brings the entry count above
    100: an entry goes when its age exceeds the TTL, and stays when its
    age is at most the TTL. *)
Lemma setCache_overflow_sweep (key : jsstring) (payload : Payload) (w : World) :
  let inserted :=
    <[key := {| data := payload; timestamp := clock w (ticks w) |}]>
      (cache w) in
  Z.of_nat (size inserted) > 100 ->
  exists w',
    setCache key payload w = (Return tt, w')
    /\ forall k e,
         cache w' !! k = Some e <->
         inserted !! k = Some e
         /\ clock w (S (ticks w)) - timestamp e <= cacheTimeout w.
Proof.
  intros inserted Hsize.
  unfold setCache, clearOldCache, cache_set, cache_size, cache_delete_where,
    mbind, M_bind, Date_now, gets. simpl. fold inserted.
  destruct (Z.gtb_spec (Z.of_nat (size inserted)) 100) as [_|]; [|lia].
  simpl. eexists. split; [reflexivity|]. intros k e. simpl.
  rewrite map_lookup_filter_Some. simpl.
  destruct (Z.gtb_spec (clock w (S (ticks w)) - timestamp e) (cacheTimeout w));
    intuition (try lia; try discriminate).
Qed.

(** C4, on the code: the insertion of a 101st entry triggers the sweep,
    and the sweep keeps the entry whose age equals the TTL, although it is
    expired ([isValidCache] reports a miss for it at that same instant). *)
Theorem C4_sweep_keeps_entry_aged_ttl :
  let w' := (setCache (lit "all_books") (Books []) full_world).2 in
  let oldest := {| data := Books []; timestamp := 1700000000000 |} in
  size (cache full_world) = 100%nat
  /\ size (cache w') = 101%nat
  /\ cache w' !! search_key (lit "dune") 0 = Some oldest
  /\ clock w' (ticks w') - timestamp oldest >= cacheTimeout w'
  /\ (isValidCache (search_key (lit "dune") 0) w').1 = Return false.
Proof. vm_compute. repeat split; discriminate. Qed.

(** C2, on the code: [getBookDetails] fetches a record that fails
    normalisation ([transformBookData] returns [null]), stores that [null]
    in the cache all the same, and reports success. *)
Theorem C2_null_record_is_cached :
  exists r w',
    getBookDetails (Some (lit "x1")) true answers_no_id = (Return r, w')
    /\ (transformBookData no_id_record answers_no_id).1 = Return None
    /\ success r = true
    /\ result_data r = Some (Book None)
    /\ cache answers_no_id !! lit "book_x1" = None
    /\ cache w' !! lit "book_x1"
       = Some {| data := Book None; timestamp := 1700000000000 |}.
Proof.
  do 2 eexists. split; [reflexivity|]. vm_compute. repeat split.
Qed.

Lemma store_if_returns (useCache : bool) (key : jsstring) (payload : Payload)
    (w : World) :
  exists u w',
    (if useCache then setCache key payload else mret tt) w = (Return u, w').
Proof.
  destruct useCache; [|eexists _, _; reflexivity].
  destruct (setCache_returns key payload w) as (w' & ->). eauto.
Qed.

Lemma keeps_cache_transformBookData (book : value) :
  keeps_cache (transformBookData book).
Proof.
  intros w o w'. rewrite transformBookData_run.
  destruct (lacks_id book) as [[|]|]; try now intros [= _ <-].
  destruct (build_record book); now intros [= _ <-].
Qed.

Lemma keeps_cache_transformBooksData (books : value) :
  keeps_cache (transformBooksData books).
Proof.
  destruct books; try apply keeps_cache_ret.
  apply keeps_cache_bind; [|intros; apply keeps_cache_ret].
  induction items as [|x items IH]; [apply keeps_cache_ret|].
  simpl. apply keeps_cache_bind; [apply keeps_cache_transformBookData|].
  intros y. apply keeps_cache_bind; [exact IH|]. intros; apply keeps_cache_ret.
Qed.

(** A lookup can only delete the entry it finds expired. *)
Lemma cache_hit_shrinks (useCache : bool) (key : jsstring) :
  shrinks_cache (cache_hit useCache key).
Proof.
  intros w o w1. unfold cache_hit. destruct useCache; [|now intros [= _ <-]].
  unfold isValidCache, cache_get, mbind, M_bind, Date_now, gets. simpl.
  destruct (cache w !! key) as [e|]; [|now intros [= _ <-]]. simpl.
  destruct (_ <? _); simpl; intros [= _ <-]; simpl; [reflexivity|].
  apply delete_subseteq.
Qed.

Lemma shrinks_from_cache (key : jsstring) : shrinks_cache (from_cache key).
Proof.
  intros w o w'. unfold from_cache, cache_get, mbind, M_bind. simpl.
  destruct (cache w !! key); now intros [= _ <-].
Qed.

Lemma shrinks_stores (m : M Result) :
  shrinks_cache m -> stores_on_success_only m.
Proof. intros H w o w' Hm _. exact (H _ _ _ Hm). Qed.

Lemma keeps_stores (m : M Result) :
  keeps_cache m -> stores_on_success_only m.
Proof. intros H. now apply shrinks_stores, keeps_shrinks. Qed.

Lemma succeeds_stores (m : M Result) : succeeds m -> stores_on_success_only m.
Proof.
  intros H w o w' Hm Hfail. destruct (H w) as (r & w1 & Hr & Hs).
  rewrite Hr in Hm. injection Hm as <- <-.
  rewrite (Hfail r eq_refl) in Hs. discriminate Hs.
Qed.

Lemma stores_bind {A} (m : M A) (k : A -> M Result) :
  shrinks_cache m -> (forall a, stores_on_success_only (k a)) ->
  stores_on_success_only (m ≫= k).
Proof.
  intros Hm Hk w o w'. unfold mbind, M_bind.
  destruct (m w) as [[a|e] w1] eqn:Hmw.
  - intros H Hfail.
    etrans; [exact (Hk a _ _ _ H Hfail) | exact (Hm _ _ _ Hmw)].
  - intros [= _ <-] _. exact (Hm _ _ _ Hmw).
Qed.

Lemma stores_try_catch (body : M Result) (message : jsstring) :
  stores_on_success_only body ->
  stores_on_success_only
    (try_catch body (fun error => mret (failure message))).
Proof.
  intros Hb w o w'. unfold try_catch.
  destruct (body w) as [[a|e] w1] eqn:Hbw.
  - intros [= <- <-]. exact (Hb _ _ _ Hbw).
  - intros [= _ <-] _. apply (Hb _ _ _ Hbw). discriminate.
Qed.

Lemma succeeds_bind {A} (m : M A) (k : A -> M Result) :
  (forall w, exists a w', m w = (Return a, w')) ->
  (forall a, succeeds (k a)) -> succeeds (m ≫= k).
Proof.
  intros Hm Hk w. destruct (Hm w) as (a & w1 & Hmw).
  rewrite (bindM _ _ _ _ _ Hmw). apply Hk.
Qed.

(** Once the list of books was read off the body, the rest of a list
    operation cannot fail. *)
Lemma list_tail_succeeds (d books : value) (useCache : bool)
    (key : jsstring) (finish : list BookRecord -> M Result) :
  prop_or d "books" (VArray []) = Return books ->
  (forall l, succeeds (finish l)) ->
  succeeds (books ← lift (prop_or d "books" (VArray []));
            transformedBooks ← transformBooksData books;
            (if useCache then setCache key (Books transformedBooks)
             else mret tt);;
            finish transformedBooks).
Proof.
  intros Hbooks Hfinish.
  apply succeeds_bind; [intros w; rewrite Hbooks; eexists _, _; reflexivity|].
  intros ?. apply succeeds_bind; [apply transformBooksData_returns|].
  intros l. apply succeeds_bind; [apply store_if_returns|].
  intros _. apply Hfinish.
Qed.

Lemma searchBooks_stores (query : option jsstring) (options : SearchOptions) :
  stores_on_success_only (searchBooks query options).
Proof.
  unfold searchBooks. apply stores_try_catch.
  destruct (query_rejected query); [apply keeps_stores, keeps_cache_ret|].
  apply stores_bind; [apply keeps_shrinks, keeps_cache_gets|].
  intros configured. apply stores_bind; [apply cache_hit_shrinks|].
  intros [|]; [apply shrinks_stores, shrinks_from_cache|].
  apply stores_bind; [apply keeps_shrinks, keeps_cache_makeRequest|].
  intros [d|m]; [|apply keeps_stores, keeps_cache_ret].
  destruct (prop_or d "books" (VArray [])) as [books|e] eqn:Hbooks.
  2: { apply keeps_stores. intros w o w' [= _ <-]. reflexivity. }
  apply succeeds_stores. rewrite <- Hbooks.
  apply (list_tail_succeeds d books); [exact Hbooks|].
  intros l. apply succeeds_bind.
  { intros w. unfold lift. destruct d; try discriminate Hbooks; simpl; eauto. }
  intros total w. eexists _, _. split; reflexivity.
Qed.

Lemma getAllBooks_stores (useCache : bool) :
  stores_on_success_only (getAllBooks useCache).
Proof.
  unfold getAllBooks. apply stores_try_catch.
  apply stores_bind; [apply cache_hit_shrinks|].
  intros [|]; [apply shrinks_stores, shrinks_from_cache|].
  apply stores_bind; [apply keeps_shrinks, keeps_cache_makeRequest|].
  intros [d|m]; [|apply keeps_stores, keeps_cache_ret].
  destruct (prop_or d "books" (VArray [])) as [books|e] eqn:Hbooks.
  2: { apply keeps_stores. intros w o w' [= _ <-]. reflexivity. }
  apply succeeds_stores. rewrite <- Hbooks.
  apply (list_tail_succeeds d books); [exact Hbooks|].
  intros l w. eexists _, _. split; reflexivity.
Qed.

Lemma getBookDetails_stores (bookId : option jsstring) (useCache : bool) :
  stores_on_success_only (getBookDetails bookId useCache).
Proof.
  unfold getBookDetails. apply stores_try_catch.
  destruct bookId as [[|c id]|]; try apply keeps_stores, keeps_cache_ret.
  apply stores_bind; [apply cache_hit_shrinks|].
  intros [|]; [apply shrinks_stores, shrinks_from_cache|].
  apply stores_bind; [apply keeps_shrinks, keeps_cache_makeRequest|].
  intros [d|m]; [|apply keeps_stores, keeps_cache_ret].
  apply succeeds_stores.
  apply succeeds_bind; [apply transformBookData_returns|].
  intros o. apply succeeds_bind; [apply store_if_returns|].
  intros _ w. eexists _, _. split; reflexivity.
Qed.

(** The part of "never caches failures" that the code keeps: a call that
    returns [success: false] adds no entry to the cache and replaces
    none (it can only have deleted an expired one). *)
Lemma failed_call_stores_nothing (op : Operation) (w w' : World)
    (r : Result) :
  call op w = (Return r, w') -> success r = false -> cache w' ⊆ cache w.
Proof.
  intros Hcall Hfail.
  assert (H : stores_on_success_only (call op)).
  { destruct op; [apply searchBooks_stores | apply getAllBooks_stores
                  | apply getBookDetails_stores]. }
  apply (H _ _ _ Hcall). intros r' [= <-]. exact Hfail.
Qed.

(** The public operations never throw: every call returns a result. *)
Lemma call_returns (op : Operation) (w : World) :
  exists r w', call op w = (Return r, w').
Proof.
  destruct op; simpl;
    [unfold searchBooks | unfold getAllBooks | unfold getBookDetails];
    unfold try_catch;
    match goal with |- context [ match ?b with _ => _ end ] =>
      destruct b as [[r|e] w1] end; eauto.
Qed.

(** ** Results of a search *)

(** C7, as stated, fails: a search served from the cache succeeds with a
    result that has no [totalItems]. *)
Lemma C7_cached_result_lacks_totalItems :
  exists r w',
    searchBooks (Some (lit "dune"))
                {| opt_maxResults := None; opt_useCache := None |}
                cached_search_world
    = (Return r, w')
    /\ success r = true
    /\ fromCache r = Some true
    /\ totalItems r = None.
Proof. do 2 eexists. split; [vm_compute; reflexivity|]. repeat split. Qed.

(** ** Responses without a list of books *)

Lemma cache_hit_remote (useCache : bool) (key : jsstring) (w w1 : World)
    (o : outcome bool) :
  cache_hit useCache key w = (o, w1) -> remote w1 = remote w.
Proof.
  unfold cache_hit. destruct useCache; [|now intros [= _ <-]].
  unfold isValidCache, cache_get, mbind, M_bind, Date_now, gets. simpl.
  destruct (cache w !! key) as [e|]; [|now intros [= _ <-]]. simpl.
  destruct (_ <? _); simpl; now intros [= _ <-].
Qed.

Lemma makeRequest_ok (method : Method) (endpoint : jsstring)
    (body : option SearchBody) (w : World) (status : Z) (text : jsstring)
    (parsed : value) :
  (forall req, remote w req = HttpResponse status text (Some parsed)) ->
  response_ok status = true ->
  exists w',
    makeRequest method endpoint body w = (Return (RequestOk parsed), w').
Proof.
  intros Hremote Hok.
  unfold makeRequest, fetch, mbind, M_bind, gets. simpl.
  rewrite Hremote, Hok. simpl. eauto.
Qed.

(** [response.data.books || []] when the body is not [null] and has no
    array under [books]: [transformBooksData] makes the empty list of
    it. *)
Lemma books_or_empty (parsed : value) :
  parsed <> VNull -> parsed <> VUndefined ->
  (forall items, get_prop parsed "books" <> Return (VArray items)) ->
  exists books,
    prop_or parsed "books" (VArray []) = Return books
    /\ forall w, transformBooksData books w = (Return [], w).
Proof.
  intros Hnull Hundef Hbooks. unfold prop_or.
  destruct (get_prop parsed "books") as [v|e] eqn:Hget.
  - simpl. unfold js_or. destruct (truthy v) eqn:Ht.
    + exists v. split; [reflexivity|]. intros w.
      destruct v; try reflexivity. now destruct (Hbooks items).
    + exists (VArray []). split; reflexivity.
  - destruct parsed; try discriminate Hget; congruence.
Qed.

Lemma totalItems_or_length (parsed : value) (n : Z) :
  parsed <> VNull -> parsed <> VUndefined ->
  exists total, prop_or parsed "totalItems" (VNumber n) = Return total.
Proof. intros Hnull Hundef. destruct parsed; simpl; eauto; congruence. Qed.

(** C10, as stated, fails: on a 2xx response whose parsed body is [null]
    (so it has no [books] array), [searchBooks] and [getAllBooks] return a
    failure. *)
Lemma C10_null_body_fails :
  exists r1 r2 w1 w2,
    searchBooks (Some (lit "dune"))
                {| opt_maxResults := None; opt_useCache := None |} answers_null
    = (Return r1, w1)
    /\ getAllBooks true answers_null = (Return r2, w2)
    /\ success r1 = false
    /\ error r1 = Some (lit "Error buscando libros. Intenta de nuevo.")
    /\ success r2 = false.
Proof.
  do 4 eexists. split; [vm_compute; reflexivity|].
  split; [vm_compute; reflexivity|]. repeat split.
Qed.

(** Steps of a run whose next computation is known to return. *)
Ltac step_with H := rewrite (bindM _ _ _ _ _ H).

Ltac step_request Hremote Hok :=
  match goal with
  | |- context [ (makeRequest ?m ?ep ?b ≫= _) ?w1 ] =>
      let w2 := fresh "w2" in
      let Hreq := fresh "Hreq" in
      destruct (makeRequest_ok m ep b w1 _ _ _ Hremote Hok) as (w2 & Hreq);
      step_with Hreq
  end.

Ltac step_store :=
  match goal with
  | |- context [ ((if ?u then setCache ?k ?p else mret tt) ≫= _) ?w2 ] =>
      let w3 := fresh "w3" in
      let Hset := fresh "Hset" in
      destruct (store_if_returns u k p w2) as ([] & w3 & Hset);
      step_with Hset
  end.

(** C10 (amended): on a 2xx response whose parsed JSON body is not [null]
    and has no array under [books] (the property is absent, or is not an
    array), a [searchBooks] or [getAllBooks] call that goes to the network
    returns a successful result with an empty list of records. *)
Theorem C10_missing_books_is_empty (w : World) (status : Z)
    (text : jsstring) (parsed : value) :
  (forall req, remote w req = HttpResponse status text (Some parsed)) ->
  response_ok status = true ->
  parsed <> VNull -> parsed <> VUndefined ->
  (forall items, get_prop parsed "books" <> Return (VArray items)) ->
  (forall q options,
      query_rejected (Some q) = false ->
      (cache_hit (default true (opt_useCache options))
                 (searchCacheKey w q options) w).1 = Return false ->
      exists r w',
        searchBooks (Some q) options w = (Return r, w')
        /\ success r = true
        /\ result_data r = Some (Books [])
        /\ fromCache r = Some false)
  /\ (forall useCache,
        (cache_hit useCache (lit "all_books") w).1 = Return false ->
        exists r w',
          getAllBooks useCache w = (Return r, w')
          /\ success r = true
          /\ result_data r = Some (Books [])
          /\ fromCache r = Some false).
Proof.
  intros Hremote Hok Hnull Hundef Hbooks.
  destruct (books_or_empty parsed Hnull Hundef Hbooks) as (books & Hb & Ht).
  assert (Hlater : forall useCache key o w1,
             cache_hit useCache key w = (o, w1) ->
             forall req,
               remote w1 req = HttpResponse status text (Some parsed)).
  { intros useCache key o w1 Hhit req.
    rewrite (cache_hit_remote _ _ _ _ _ Hhit). apply Hremote. }
  split.
  - intros q options Hq Hmiss.
    destruct (cache_hit _ _ w) as [o w1] eqn:Hhit. simpl in Hmiss. subst o.
    unfold searchBooks, try_catch. rewrite Hq.
    rewrite (bindM (gets maxResults) _ w w _ eq_refl).
    unfold searchCacheKey in Hhit. simpl default at 1.
    step_with Hhit.
    step_request (Hlater _ _ _ _ Hhit) Hok.
    rewrite (bindM (lift _) _ w2 w2 books) by (unfold lift; now rewrite Hb).
    step_with (Ht w2). step_store.
    destruct (totalItems_or_length parsed
                (Z.of_nat (length (@nil BookRecord))) Hnull Hundef)
      as (total & Htot).
    rewrite (bindM (lift _) _ w3 w3 total) by (unfold lift; now rewrite Htot).
    do 2 eexists. split; [reflexivity|]. repeat split.
  - intros useCache Hmiss.
    destruct (cache_hit _ _ w) as [o w1] eqn:Hhit. simpl in Hmiss. subst o.
    unfold getAllBooks, try_catch.
    step_with Hhit.
    step_request (Hlater _ _ _ _ Hhit) Hok.
    rewrite (bindM (lift _) _ w2 w2 books) by (unfold lift; now rewrite Hb).
    step_with (Ht w2). step_store.
    do 2 eexists. split; [reflexivity|]. repeat split.
Qed.

Lemma C10_missing_books_is_empty_witness :
  (exists r w',
      searchBooks (Some (lit "dune"))
                  {| opt_maxResults := None; opt_useCache := None |}
                  answers_no_books
      = (Return r, w')
      /\ success r = true
      /\ result_data r = Some (Books [])
      /\ fromCache r = Some false)
  /\ (exists r w',
        getAllBooks true answers_no_books = (Return r, w')
        /\ success r = true
        /\ result_data r = Some (Books [])
        /\ fromCache r = Some false).
Proof.
  destruct (C10_missing_books_is_empty answers_no_books 200 (lit "OK")
              (VObject [(lit "error", VString (lit "empty query"))]))
    as [Hsearch Hall].
  - intros req. reflexivity.
  - reflexivity.
  - discriminate.
  - discriminate.
  - intros items. discriminate.
  - split.
    + apply Hsearch; reflexivity.
    + apply Hall. reflexivity.
Defined.

(* ===================================================================== *)
(** * Further properties of the service *)
(* ===================================================================== *)

(** ** Relations kept along a run *)

Section Respects.
Variable R : World -> World -> Prop.
Hypothesis R_refl : forall w, R w w.
Hypothesis R_trans : forall w1 w2 w3, R w1 w2 -> R w2 w3 -> R w1 w3.

Lemma respects_ret {A} (a : A) : respects R (mret a).
Proof. intros w o w' [= _ <-]. apply R_refl. Qed.

Lemma respects_lift {A} (o : outcome A) : respects R (lift o).
Proof. intros w o' w' [= _ <-]. apply R_refl. Qed.

Lemma respects_gets {A} (f : World -> A) : respects R (gets f).
Proof. intros w o w' [= _ <-]. apply R_refl. Qed.

Lemma respects_bind {A B} (m : M A) (k : A -> M B) :
  respects R m -> (forall a, respects R (k a)) -> respects R (m ≫= k).
Proof.
  intros Hm Hk w o w'. unfold mbind, M_bind.
  destruct (m w) as [[a|e] w1] eqn:Hmw.
  - intros H. exact (R_trans _ _ _ (Hm _ _ _ Hmw) (Hk a _ _ _ H)).
  - intros [= _ <-]. exact (Hm _ _ _ Hmw).
Qed.

Lemma respects_try_catch {A} (body : M A) (handler : exn -> M A) :
  respects R body -> (forall e, respects R (handler e)) ->
  respects R (try_catch body handler).
Proof.
  intros Hb Hh w o w'. unfold try_catch.
  destruct (body w) as [[a|e] w1] eqn:Hbw.
  - intros [= _ <-]. exact (Hb _ _ _ Hbw).
  - intros H. exact (R_trans _ _ _ (Hb _ _ _ Hbw) (Hh e _ _ _ H)).
Qed.

Lemma respects_bind_ret {A B} (a : A) (k : A -> M B) :
  respects R (k a) -> respects R (mret a ≫= k).
Proof. intros H w o w'. apply H. Qed.

Lemma respects_if {A} (b : bool) (m1 m2 : M A) :
  respects R m1 -> respects R m2 -> respects R (if b then m1 else m2).
Proof. now destruct b. Qed.

Lemma respects_map_M {A B} (f : A -> M B) (l : list A) :
  (forall x, respects R (f x)) -> respects R (map_M f l).
Proof.
  intros Hf. induction l as [|x l IH]; simpl; [apply respects_ret|].
  apply respects_bind; [apply Hf|]. intros y.
  apply respects_bind; [exact IH|]. intros ys. apply respects_ret.
Qed.
End Respects.

Lemma same_setup_refl (w : World) : same_setup w w.
Proof. repeat split. Qed.

Lemma same_setup_trans (w1 w2 w3 : World) :
  same_setup w1 w2 -> same_setup w2 w3 -> same_setup w1 w3.
Proof. unfold same_setup. intuition congruence. Qed.

Lemma sent_by_same_setup (w w' : World) (req : Request) :
  same_setup w w' -> sent_by w' req -> sent_by w req.
Proof.
  intros (_ & _ & _ & Hb & Hu & _) [Ha He].
  unfold sent_by, authorization_of in *. now rewrite <- Hb, <- Hu.
Qed.

Lemma advances_refl (w : World) : advances w w.
Proof.
  split; [apply same_setup_refl|]. split; [lia|].
  exists []. split; [reflexivity|]. intros req [].
Qed.

Lemma advances_trans (w1 w2 w3 : World) :
  advances w1 w2 -> advances w2 w3 -> advances w1 w3.
Proof.
  intros (Hs1 & Ht1 & l1 & He1 & Hr1) (Hs2 & Ht2 & l2 & He2 & Hr2).
  split; [exact (same_setup_trans _ _ _ Hs1 Hs2)|]. split; [lia|].
  exists (l2 ++ l1). split; [now rewrite He2, He1, app_assoc|].
  intros req Hin. apply in_app_or in Hin as [Hin|Hin].
  - exact (sent_by_same_setup _ _ _ Hs1 (Hr2 _ Hin)).
  - exact (Hr1 _ Hin).
Qed.

(** A step that logs an access to the [Map], or reads the clock. *)
Lemma advances_step (w w' : World) (e : Effect) :
  same_setup w w' -> (ticks w <= ticks w')%nat ->
  effects w' = effects w
  \/ (effects w' = e :: effects w /\ is_fetch e = false) ->
  advances w w'.
Proof.
  intros Hs Ht He. split; [exact Hs|]. split; [exact Ht|].
  destruct He as [He|[He Hf]].
  - exists []. split; [exact He|]. intros req [].
  - exists [e]. split; [exact He|]. intros req [->|[]]. discriminate Hf.
Qed.

Ltac advance_primitive :=
  intros w o w' [= _ <-];
  first [ apply (advances_step _ _ CacheSize);
          [repeat split | simpl; lia | left; reflexivity]
        | eapply advances_step;
          [repeat split | simpl; lia | right; split; reflexivity] ].

Lemma advances_Date_now : respects advances Date_now.
Proof. advance_primitive. Qed.

Lemma advances_cache_get (key : jsstring) : respects advances (cache_get key).
Proof. advance_primitive. Qed.

Lemma advances_cache_set (key : jsstring) (e : CacheEntry) :
  respects advances (cache_set key e).
Proof. advance_primitive. Qed.

Lemma advances_cache_delete (key : jsstring) :
  respects advances (cache_delete key).
Proof. advance_primitive. Qed.

Lemma advances_cache_size : respects advances cache_size.
Proof. advance_primitive. Qed.

Lemma advances_cache_clear : respects advances cache_clear.
Proof. advance_primitive. Qed.

Lemma advances_cache_delete_where (drop : CacheEntry -> bool) :
  respects advances (cache_delete_where drop).
Proof. advance_primitive. Qed.

Create HintDb runs.
#[local] Hint Resolve advances_Date_now advances_cache_get
  advances_cache_set advances_cache_delete advances_cache_size
  advances_cache_clear advances_cache_delete_where : runs.

(** Composition steps for [respects R], [R] reflexive and transitive. *)
Ltac run_steps R_refl R_trans :=
  repeat first
    [ progress cbv zeta
    | solve [auto with runs]
    | apply (respects_ret _ R_refl)
    | apply (respects_lift _ R_refl)
    | apply (respects_gets _ R_refl)
    | apply respects_bind_ret
    | apply (respects_bind _ R_trans)
    | apply (respects_try_catch _ R_trans)
    | match goal with
      | |- respects _ (match ?x with _ => _ end) => destruct x
      | |- forall _, respects _ _ => intro
      end ].

Ltac advance := run_steps advances_refl advances_trans.

(** ** Requests *)

(** The request [makeRequest] builds in [w]. *)
Lemma makeRequest_run (method : Method) (endpoint : jsstring)
    (body : option SearchBody) (w : World) :
  let req := {| method := method; url := baseURL w ++ endpoint;
                authorization := authorization_of w; body := body |} in
  makeRequest method endpoint body w
  = (Return
       match remote w req with
       | Aborted => RequestFailed msg_timeout
       | NetworkFailure => RequestFailed msg_connection
       | HttpResponse status statusText json =>
           if response_ok status then
             match json with
             | Some parsed => RequestOk parsed
             | None => RequestFailed msg_connection
             end
           else RequestFailed (lit "Error HTTP " ++ number_to_string status
                               ++ lit ": " ++ statusText)
       end,
     with_effect (Fetch req) w).
Proof.
  unfold makeRequest, fetch, mbind, M_bind, gets, authorization_of. simpl.
  destruct (remote w _) as [| |status text [parsed|]]; simpl;
    try destruct (response_ok status); reflexivity.
Qed.

Lemma advances_makeRequest (method : Method) (endpoint : jsstring)
    (body : option SearchBody) :
  respects advances (makeRequest method endpoint body).
Proof.
  intros w o w'. rewrite makeRequest_run. intros [= _ <-].
  split; [repeat split|]. split; [simpl; lia|].
  eexists [_]. split; [reflexivity|].
  intros req [[= <-]|[]]. split; [reflexivity|]. now exists endpoint.
Qed.

Lemma advances_isValidCache (key : jsstring) :
  respects advances (isValidCache key).
Proof.
  unfold isValidCache. advance.
Qed.

Lemma advances_clearOldCache : respects advances clearOldCache.
Proof. unfold clearOldCache. advance. Qed.

Lemma advances_setCache (key : jsstring) (payload : Payload) :
  respects advances (setCache key payload).
Proof.
  unfold setCache. advance.
Qed.

Lemma advances_transformBookData (book : value) :
  respects advances (transformBookData book).
Proof. unfold transformBookData. advance. Qed.

Lemma advances_transformBooksData (books : value) :
  respects advances (transformBooksData books).
Proof.
  destruct books; simpl; advance.
  apply (respects_map_M advances advances_refl advances_trans).
  apply advances_transformBookData.
Qed.

Lemma advances_cache_hit (useCache : bool) (key : jsstring) :
  respects advances (cache_hit useCache key).
Proof. unfold cache_hit. advance. Qed.

Lemma advances_from_cache (key : jsstring) : respects advances (from_cache key).
Proof. unfold from_cache. advance. Qed.

#[local] Hint Resolve advances_makeRequest advances_isValidCache
  advances_clearOldCache advances_setCache advances_transformBookData
  advances_transformBooksData advances_cache_hit advances_from_cache
  : runs.

Lemma advances_call (op : Operation) : respects advances (call op).
Proof.
  destruct op as [query options|useCache|bookId useCache]; simpl.
  - unfold searchBooks. advance.
  - unfold getAllBooks. advance.
  - unfold getBookDetails. advance.
Qed.

(** ** Requests sent by a call *)

Lemma fetches_app (l1 l2 : list Effect) :
  fetches (l1 ++ l2) = (fetches l1 + fetches l2)%nat.
Proof. unfold fetches. now rewrite List.filter_app, length_app. Qed.

Lemma quiet_refl (w : World) : quiet w w.
Proof. exists []. split; reflexivity. Qed.

Lemma quiet_trans (w1 w2 w3 : World) :
  quiet w1 w2 -> quiet w2 w3 -> quiet w1 w3.
Proof.
  intros (l1 & He1 & Hf1) (l2 & He2 & Hf2). exists (l2 ++ l1).
  split; [now rewrite He2, He1, app_assoc|]. rewrite fetches_app. lia.
Qed.

Lemma advances_quiet_step (w w' : World) (e : Effect) :
  effects w' = effects w
  \/ (effects w' = e :: effects w /\ is_fetch e = false) ->
  quiet w w'.
Proof.
  intros [He|[He Hf]].
  - exists []. split; [exact He | reflexivity].
  - exists [e]. split; [exact He|]. unfold fetches. simpl. now rewrite Hf.
Qed.

Ltac quiet_primitive :=
  intros w o w' [= _ <-];
  first [ apply (advances_quiet_step _ _ CacheSize); left; reflexivity
        | eapply advances_quiet_step; right; split; reflexivity ].

Lemma quiet_Date_now : respects quiet Date_now.
Proof. quiet_primitive. Qed.

Lemma quiet_cache_get (key : jsstring) : respects quiet (cache_get key).
Proof. quiet_primitive. Qed.

Lemma quiet_cache_set (key : jsstring) (e : CacheEntry) :
  respects quiet (cache_set key e).
Proof. quiet_primitive. Qed.

Lemma quiet_cache_delete (key : jsstring) : respects quiet (cache_delete key).
Proof. quiet_primitive. Qed.

Lemma quiet_cache_size : respects quiet cache_size.
Proof. quiet_primitive. Qed.

Lemma quiet_cache_delete_where (drop : CacheEntry -> bool) :
  respects quiet (cache_delete_where drop).
Proof. quiet_primitive. Qed.

#[local] Hint Resolve quiet_Date_now quiet_cache_get quiet_cache_set
  quiet_cache_delete quiet_cache_size quiet_cache_delete_where : runs.

Ltac hush := run_steps quiet_refl quiet_trans.

Lemma quiet_isValidCache (key : jsstring) : respects quiet (isValidCache key).
Proof. unfold isValidCache. hush. Qed.

Lemma quiet_setCache (key : jsstring) (payload : Payload) :
  respects quiet (setCache key payload).
Proof. unfold setCache, clearOldCache. hush. Qed.

Lemma quiet_transformBookData (book : value) :
  respects quiet (transformBookData book).
Proof. unfold transformBookData. hush. Qed.

Lemma quiet_transformBooksData (books : value) :
  respects quiet (transformBooksData books).
Proof.
  destruct books; simpl; hush.
  apply (respects_map_M quiet quiet_refl quiet_trans).
  apply quiet_transformBookData.
Qed.

Lemma quiet_cache_hit (useCache : bool) (key : jsstring) :
  respects quiet (cache_hit useCache key).
Proof.
  unfold cache_hit. destruct useCache; [apply quiet_isValidCache | hush].
Qed.

Lemma quiet_from_cache (key : jsstring) : respects quiet (from_cache key).
Proof. unfold from_cache. hush. Qed.

#[local] Hint Resolve quiet_isValidCache quiet_setCache
  quiet_transformBookData quiet_transformBooksData quiet_cache_hit
  quiet_from_cache : runs.

Lemma sends_one_makeRequest (method : Method) (endpoint : jsstring)
    (body : option SearchBody) :
  sends_one (makeRequest method endpoint body).
Proof.
  intros w o w'. rewrite makeRequest_run. intros [= _ <-].
  eexists [_]. split; reflexivity.
Qed.

Lemma sends_one_bind {A B} (m : M A) (k : A -> M B) :
  sends_one m -> (forall a, respects quiet (k a)) -> sends_one (m ≫= k).
Proof.
  intros Hm Hk w o w'. unfold mbind, M_bind.
  destruct (m w) as [[a|e] w1] eqn:Hmw;
    destruct (Hm _ _ _ Hmw) as (l1 & He1 & Hf1).
  - intros H. destruct (Hk a _ _ _ H) as (l2 & He2 & Hf2).
    exists (l2 ++ l1). split; [now rewrite He2, He1, app_assoc|].
    rewrite fetches_app. lia.
  - intros [= _ <-]. eauto.
Qed.

Lemma accounted_quiet (m : M Result) :
  respects quiet m -> yields (fun r => fromCache r <> Some false) m ->
  accounted m.
Proof.
  intros Hq Hy w o w' Hm. destruct (Hq _ _ _ Hm) as (later & He & Hf).
  exists later. split; [exact He|]. split; [lia|].
  intros r ->. split; [intros _; exact Hf|].
  intros Hfc. now destruct (Hy _ _ _ Hm).
Qed.

Lemma accounted_sends_one (m : M Result) :
  sends_one m -> fetched m -> accounted m.
Proof.
  intros Hs Hy w o w' Hm. destruct (Hs _ _ _ Hm) as (later & He & Hf).
  exists later. split; [exact He|]. split; [lia|].
  intros r ->. split; [|intros _; exact Hf].
  intros Hfc. now destruct (Hy _ _ _ Hm).
Qed.

Lemma accounted_bind {A} (m : M A) (k : A -> M Result) :
  respects quiet m -> (forall a, accounted (k a)) -> accounted (m ≫= k).
Proof.
  intros Hm Hk w o w'. unfold mbind, M_bind.
  destruct (m w) as [[a|e] w1] eqn:Hmw;
    destruct (Hm _ _ _ Hmw) as (l1 & He1 & Hf1).
  - intros H. destruct (Hk a _ _ _ H) as (l2 & He2 & Hle & Hr).
    exists (l2 ++ l1). split; [now rewrite He2, He1, app_assoc|].
    rewrite fetches_app, Hf1, Nat.add_0_r. split; [exact Hle | exact Hr].
  - intros [= <- <-]. exists l1. split; [exact He1|]. split; [lia|].
    intros r [=].
Qed.

Lemma accounted_try_catch (body : M Result) (message : jsstring) :
  accounted body ->
  accounted (try_catch body (fun error => mret (failure message))).
Proof.
  intros Hb w o w'. unfold try_catch.
  destruct (body w) as [[a|e] w1] eqn:Hbw;
    destruct (Hb _ _ _ Hbw) as (later & He & Hle & Hr).
  - intros [= <- <-]. eauto.
  - intros [= <- <-]. exists later. split; [exact He|]. split; [exact Hle|].
    intros r [= <-]. split; discriminate.
Qed.

Lemma accounted_failure (message : jsstring) :
  accounted (mret (failure message)).
Proof.
  apply accounted_quiet; [hush|]. apply yields_ret. discriminate.
Qed.

Lemma accounted_from_cache (key : jsstring) : accounted (from_cache key).
Proof.
  apply accounted_quiet; [hush|]. apply yields_from_cache. discriminate.
Qed.

Lemma network_answer_fetched {A} (m : M A) (k : A -> M Result) :
  (forall a, fetched (k a)) -> fetched (m ≫= k).
Proof. apply fetched_bind. Qed.

Ltac fetched_tail :=
  repeat first
    [ apply fetched_failure
    | apply fetched_ret; discriminate
    | apply fetched_bind; intros ?
    | match goal with
      | |- fetched (match ?x with _ => _ end) => destruct x
      end ].

Lemma accounted_searchBooks (query : option jsstring)
    (options : SearchOptions) :
  accounted (searchBooks query options).
Proof.
  unfold searchBooks. apply accounted_try_catch.
  destruct (query_rejected query); [apply accounted_failure|].
  apply accounted_bind; [hush|]. intros configured.
  apply accounted_bind; [hush|].
  intros [|]; [apply accounted_from_cache|].
  apply accounted_sends_one; [|fetched_tail].
  apply sends_one_bind; [apply sends_one_makeRequest|]. intros response. hush.
Qed.

Lemma accounted_getAllBooks (useCache : bool) :
  accounted (getAllBooks useCache).
Proof.
  unfold getAllBooks. apply accounted_try_catch.
  apply accounted_bind; [hush|].
  intros [|]; [apply accounted_from_cache|].
  apply accounted_sends_one; [|fetched_tail].
  apply sends_one_bind; [apply sends_one_makeRequest|]. intros response. hush.
Qed.

Lemma accounted_getBookDetails (bookId : option jsstring) (useCache : bool) :
  accounted (getBookDetails bookId useCache).
Proof.
  unfold getBookDetails. apply accounted_try_catch.
  destruct bookId as [[|c id]|]; try apply accounted_failure.
  apply accounted_bind; [hush|].
  intros [|]; [apply accounted_from_cache|].
  apply accounted_sends_one; [|fetched_tail].
  apply sends_one_bind; [apply sends_one_makeRequest|]. intros response. hush.
Qed.

(** ** Calls that do not use the cache *)

Lemma bypasses_cache_refl (w : World) : bypasses_cache w w.
Proof.
  split; [reflexivity|]. exists []. split; [reflexivity | constructor].
Qed.

Lemma bypasses_cache_trans (w1 w2 w3 : World) :
  bypasses_cache w1 w2 -> bypasses_cache w2 w3 -> bypasses_cache w1 w3.
Proof.
  intros (Hc1 & l1 & He1 & Hf1) (Hc2 & l2 & He2 & Hf2).
  split; [congruence|]. exists (l2 ++ l1).
  split; [now rewrite He2, He1, app_assoc|]. now apply Forall_app.
Qed.

Lemma bypasses_cache_Date_now : respects bypasses_cache Date_now.
Proof.
  intros w o w' [= _ <-]. split; [reflexivity|].
  exists []. split; [reflexivity | constructor].
Qed.

Lemma bypasses_cache_makeRequest (method : Method) (endpoint : jsstring)
    (body : option SearchBody) :
  respects bypasses_cache (makeRequest method endpoint body).
Proof.
  intros w o w'. rewrite makeRequest_run. intros [= _ <-].
  split; [reflexivity|]. eexists [_]. split; [reflexivity|].
  now repeat constructor.
Qed.

#[local] Hint Resolve bypasses_cache_Date_now bypasses_cache_makeRequest
  : runs.

Ltac bypass := run_steps bypasses_cache_refl bypasses_cache_trans.

Lemma bypasses_cache_transformBookData (book : value) :
  respects bypasses_cache (transformBookData book).
Proof. unfold transformBookData. bypass. Qed.

Lemma bypasses_cache_transformBooksData (books : value) :
  respects bypasses_cache (transformBooksData books).
Proof.
  destruct books; simpl; bypass.
  apply (respects_map_M _ bypasses_cache_refl bypasses_cache_trans).
  apply bypasses_cache_transformBookData.
Qed.

#[local] Hint Resolve bypasses_cache_transformBookData
  bypasses_cache_transformBooksData : runs.

Lemma bypasses_cache_call (op : Operation) :
  without_cache op -> respects bypasses_cache (call op).
Proof.
  destruct op as [query [m u]|useCache|bookId useCache]; simpl;
    [intros -> | intros -> | intros ->].
  - unfold searchBooks, cache_hit. simpl. bypass.
  - unfold getAllBooks, cache_hit. bypass.
  - unfold getBookDetails, cache_hit. bypass.
Qed.

(** ** Storing and serving *)

Lemma bind_inv {A B} (m : M A) (k : A -> M B) (w w' : World) (b : B) :
  (m ≫= k) w = (Return b, w') ->
  exists a w1, m w = (Return a, w1) /\ k a w1 = (Return b, w').
Proof.
  unfold mbind, M_bind. destruct (m w) as [[a|e] w1]; [eauto | discriminate].
Qed.

Lemma try_catch_success (body : M Result) (message : jsstring)
    (w w' : World) (r : Result) :
  try_catch body (fun error => mret (failure message)) w = (Return r, w') ->
  success r = true ->
  body w = (Return r, w').
Proof.
  unfold try_catch. destruct (body w) as [[a|e] w1]; [now intros [= <- <-]|].
  intros [= <- _]. discriminate.
Qed.

(** What [setCache] leaves behind: the new entry is there unless the sweep
    found it older than the TTL already. *)
Lemma setCache_stored (key : jsstring) (payload : Payload) (w w' : World)
    (u : unit) :
  setCache key payload w = (Return u, w') ->
  (ticks w < ticks w' <= S (S (ticks w)))%nat
  /\ same_setup w w'
  /\ ((ticks w' = S (S (ticks w)) ->
       clock w (S (ticks w)) - clock w (ticks w) <= cacheTimeout w) ->
      cache w' !! key
      = Some {| data := payload; timestamp := clock w (ticks w) |}).
Proof.
  unfold setCache, clearOldCache, cache_set, cache_size, cache_delete_where,
    mbind, M_bind, Date_now, gets. simpl.
  destruct u. destruct (_ >? 100); simpl; intros [= <-]; simpl.
  - split; [lia|]. split; [repeat split|]. intros Hsweep.
    apply map_lookup_filter_Some. split; [apply lookup_insert_eq|]. simpl.
    specialize (Hsweep eq_refl).
    destruct (Z.gtb_spec (clock w (S (ticks w)) - clock w (ticks w))
                (cacheTimeout w)); [lia | reflexivity].
  - split; [lia|]. split; [repeat split|]. intros _. apply lookup_insert_eq.
Qed.

(** A fresh entry under the key of a call is served, at the price of two
    reads of the [Map] and one of the clock. *)
Lemma call_fresh_hit (op : Operation) (w : World) (key : jsstring)
    (e : CacheEntry) :
  cached_under w op = Some key ->
  cache w !! key = Some e ->
  clock w (ticks w) - timestamp e < cacheTimeout w ->
  call op w
  = (Return (served e),
     with_effect (CacheGet key)
       (with_ticks (S (ticks w)) (with_effect (CacheGet key) w))).
Proof.
  intros Hkey He Hfresh.
  pose proof (cache_hit_fresh key w e He Hfresh) as Hhit.
  destruct op as [[q|] options|[|]|[[|c id]|] [|]]; try discriminate Hkey;
    cbv beta iota delta [cached_under] in Hkey.
  - destruct (query_rejected (Some q)) eqn:Hq; [discriminate Hkey|].
    destruct (default true (opt_useCache options)) eqn:Hc;
      [|discriminate Hkey].
    injection Hkey as <-.
    simpl. unfold searchBooks, try_catch. rewrite Hq, Hc.
    rewrite (bindM (gets maxResults) _ w w _ eq_refl).
    unfold searchCacheKey in Hhit, He |- *. simpl default.
    rewrite (bindM _ _ w _ true Hhit).
    now rewrite (from_cache_entry _ _ e) by exact He.
  - injection Hkey as <-. simpl. unfold getAllBooks, try_catch.
    rewrite (bindM _ _ w _ true Hhit).
    now rewrite (from_cache_entry _ _ e) by exact He.
  - injection Hkey as <-. simpl. unfold getBookDetails, try_catch.
    rewrite (bindM _ _ w _ true Hhit).
    now rewrite (from_cache_entry _ _ e) by exact He.
Qed.

Lemma from_cache_marked (key : jsstring) (w w' : World) (r : Result) :
  from_cache key w = (Return r, w') -> fromCache r = Some true.
Proof.
  apply (yields_from_cache (fun r => fromCache r = Some true)). reflexivity.
Qed.

(** The end of a network answer: the payload goes to the cache under
    [key], then the result is built. *)
Lemma store_and_return (key : jsstring) (payload : Payload)
    (finish : M Result) (w0 w w' : World) (r : Result) :
  advances w0 w ->
  (setCache key payload;; finish) w = (Return r, w') ->
  respects advances finish -> keeps_cache finish ->
  within_ttl w0 w' ->
  exists k w1,
    (ticks w0 <= k < ticks w')%nat
    /\ cache w' !! key
       = Some {| data := payload; timestamp := clock w0 k |}
    /\ finish w1 = (Return r, w').
Proof.
  intros Hadv Hrun Hfin Hkeep Hwin.
  apply bind_inv in Hrun as (u & w1 & Hset & Hrun).
  destruct (setCache_stored _ _ _ _ _ Hset) as (Ht & Hs & Hstored).
  destruct Hadv as (Hs0 & Ht0 & _).
  destruct (Hfin _ _ _ Hrun) as (_ & Ht1 & _).
  assert (Hclock : clock w = clock w0) by apply Hs0.
  assert (Httl : cacheTimeout w = cacheTimeout w0) by apply Hs0.
  exists (ticks w), w1. split; [lia|]. split; [|exact Hrun].
  rewrite (Hkeep _ _ _ Hrun), <- Hclock. apply Hstored.
  intros Hsweep. rewrite Hclock, Httl.
  apply Z.lt_le_incl, Hwin; lia.
Qed.

Lemma lift_inv {A} (o : outcome A) (w w' : World) (a : A) :
  lift o w = (Return a, w') -> o = Return a /\ w' = w.
Proof. now intros [= -> <-]. Qed.

(** A successful network answer of a call that uses the cache is in the
    cache afterwards, stamped with one of the readings of the clock the
    call took. *)
Lemma call_stores (op : Operation) (w w' : World) (r : Result)
    (key : jsstring) :
  cached_under w op = Some key ->
  call op w = (Return r, w') ->
  success r = true ->
  fromCache r = Some false ->
  within_ttl w w' ->
  exists e k,
    cache w' !! key = Some e
    /\ result_data r = Some (data e)
    /\ timestamp e = clock w k
    /\ (ticks w <= k < ticks w')%nat.
Proof.
  intros Hkey Hcall Hok Hfc Hwin.
  destruct op as [[q|] options|[|]|[[|c id]|] [|]]; try discriminate Hkey;
    cbv beta iota delta [cached_under] in Hkey; simpl in Hcall.
  - destruct (query_rejected (Some q)) eqn:Hq; [discriminate Hkey|].
    destruct (default true (opt_useCache options)) eqn:Hc;
      [|discriminate Hkey].
    injection Hkey as <-.
    unfold searchBooks in Hcall. apply try_catch_success in Hcall; [|exact Hok].
    rewrite Hq, Hc in Hcall.
    rewrite (bindM (gets maxResults) _ w w _ eq_refl) in Hcall.
    simpl default in Hcall.
    apply bind_inv in Hcall as ([|] & w1 & Hhit & Hcall).
    { apply from_cache_marked in Hcall. congruence. }
    apply bind_inv in Hcall as ([d|m] & w2 & Hreq & Hcall).
    2: { injection Hcall as <- _. discriminate Hok. }
    apply bind_inv in Hcall as (books & w2' & Hb & Hcall).
    apply lift_inv in Hb as [Hb ->].
    apply bind_inv in Hcall as (l & w3 & Htr & Hcall).
    eapply store_and_return in Hcall as (k & w4 & Hk & Hstored & Hfin);
      [| | advance | | exact Hwin].
    + apply bind_inv in Hfin as (total & w5 & _ & [= <- _]).
      eexists _, k. split; [exact Hstored|]. repeat split; lia.
    + eapply advances_trans; [exact (advances_cache_hit _ _ _ _ _ Hhit)|].
      eapply advances_trans; [exact (advances_makeRequest _ _ _ _ _ _ Hreq)|].
      exact (advances_transformBooksData _ _ _ _ Htr).
    + apply keeps_cache_bind; [apply keeps_cache_lift|].
      intros total. apply keeps_cache_ret.
  - injection Hkey as <-.
    unfold getAllBooks in Hcall. apply try_catch_success in Hcall; [|exact Hok].
    apply bind_inv in Hcall as ([|] & w1 & Hhit & Hcall).
    { apply from_cache_marked in Hcall. congruence. }
    apply bind_inv in Hcall as ([d|m] & w2 & Hreq & Hcall).
    2: { injection Hcall as <- _. discriminate Hok. }
    apply bind_inv in Hcall as (books & w2' & Hb & Hcall).
    apply lift_inv in Hb as [Hb ->].
    apply bind_inv in Hcall as (l & w3 & Htr & Hcall).
    eapply store_and_return in Hcall as (k & w4 & Hk & Hstored & Hfin);
      [| | advance | apply keeps_cache_ret | exact Hwin].
    + injection Hfin as <- _.
      eexists _, k. split; [exact Hstored|]. repeat split; lia.
    + eapply advances_trans; [exact (advances_cache_hit _ _ _ _ _ Hhit)|].
      eapply advances_trans; [exact (advances_makeRequest _ _ _ _ _ _ Hreq)|].
      exact (advances_transformBooksData _ _ _ _ Htr).
  - injection Hkey as <-.
    unfold getBookDetails in Hcall.
    apply try_catch_success in Hcall; [|exact Hok].
    apply bind_inv in Hcall as ([|] & w1 & Hhit & Hcall).
    { apply from_cache_marked in Hcall. congruence. }
    apply bind_inv in Hcall as ([d|m] & w2 & Hreq & Hcall).
    2: { injection Hcall as <- _. discriminate Hok. }
    apply bind_inv in Hcall as (o & w3 & Htr & Hcall).
    eapply store_and_return in Hcall as (k & w4 & Hk & Hstored & Hfin);
      [| | advance | apply keeps_cache_ret | exact Hwin].
    + injection Hfin as <- _.
      eexists _, k. split; [exact Hstored|]. repeat split; lia.
    + eapply advances_trans; [exact (advances_cache_hit _ _ _ _ _ Hhit)|].
      eapply advances_trans; [exact (advances_makeRequest _ _ _ _ _ _ Hreq)|].
      exact (advances_transformBookData _ _ _ _ Htr).
Qed.

(** ** What a request reports *)

Lemma response_ok_spec (status : Z) :
  response_ok status = true <-> 200 <= status <= 299.
Proof.
  unfold response_ok. rewrite andb_true_iff, !Z.leb_le. tauto.
Qed.

(** X1: [makeRequest] never throws; it reports success exactly when the
    fetch ended with a status from 200 to 299 and a body that parses as
    JSON, and then hands that body over; and it reports the timeout
    message exactly when the abort timer fired first. *)
Theorem makeRequest_classifies_outcomes (method : Method)
    (endpoint : jsstring) (body : option SearchBody) (w : World) :
  let req := request_of w method endpoint body in
  exists answer,
    (makeRequest method endpoint body w).1 = Return answer
    /\ (forall parsed,
          answer = RequestOk parsed <->
          exists status text,
            remote w req = HttpResponse status text (Some parsed)
            /\ 200 <= status <= 299)
    /\ (answer = RequestFailed msg_timeout <-> remote w req = Aborted).
Proof.
  intros req. rewrite makeRequest_run.
  fold (request_of w method endpoint body). fold req.
  eexists. split; [reflexivity|].
  destruct (remote w req) as [| |status text [parsed|]].
  - split; [|tauto].
    intros p. split; [discriminate | intros (s & t & [=] & _)].
  - split.
    + intros p. split; [discriminate | intros (s & t & [=] & _)].
    + split; discriminate.
  - destruct (response_ok status) eqn:Hok.
    + apply response_ok_spec in Hok. split; [|split; discriminate].
      intros p. split.
      * intros [= <-]. now exists status, text.
      * now intros (s & t & [= <- <- <-] & _).
    + split.
      * intros p. split; [discriminate|].
        intros (s & t & [= <- <- <-] & Hs).
        apply response_ok_spec in Hs. congruence.
      * split; discriminate.
  - destruct (response_ok status).
    + split.
      * intros p. split; [discriminate | intros (s & t & [=] & _)].
      * split; discriminate.
    + split.
      * intros p. split; [discriminate | intros (s & t & [=] & _)].
      * split; discriminate.
Qed.

(** X3: [testConnection] never throws and never touches the cache: it
    sends one GET request for [/books?maxResults=1], and reports success
    exactly when [makeRequest] does, passing the error message on
    otherwise. *)
Theorem testConnection_reports_reachability (w : World) :
  let endpoint := lit "/books?maxResults=1" in
  exists answer,
    testConnection w
    = (Return answer, with_effect (Fetch (request_of w GET endpoint None)) w)
    /\ (conn_success answer = true <->
        exists parsed,
          (makeRequest GET endpoint None w).1 = Return (RequestOk parsed))
    /\ (forall message,
          (makeRequest GET endpoint None w).1
          = Return (RequestFailed message) ->
          conn_success answer = false /\ conn_error answer = Some message).
Proof.
  intros endpoint. unfold testConnection, try_catch.
  change (GET_ALL endpoints ++ lit "?maxResults=1") with endpoint.
  pose proof (makeRequest_run GET endpoint None w) as Hrun. simpl in Hrun.
  rewrite (bindM _ _ _ _ _ Hrun). rewrite Hrun. simpl fst.
  match goal with
  | |- context [ Return ?a ] =>
      lazymatch type of a with RequestResult => destruct a as [d|m] end
  end.
  - eexists. split; [reflexivity|]. split.
    + split; [eauto | reflexivity].
    + intros message [=].
  - eexists. split; [reflexivity|]. split.
    + split; [discriminate | intros [p [=]]].
    + intros message [= <-]. split; reflexivity.
Qed.

(** ** The public operations as a whole *)

(** X4: the three public operations never throw: a call always returns a
    result object, which carries [data] and [fromCache] and no [error]
    when it reports success, and an [error] and neither [data] nor
    [fromCache] when it reports failure. *)
Theorem operations_return_well_formed (op : Operation) (w : World) :
  exists r,
    (call op w).1 = Return r
    /\ (success r = true ->
        is_Some (result_data r) /\ is_Some (fromCache r) /\ error r = None)
    /\ (success r = false ->
        is_Some (error r) /\ result_data r = None /\ fromCache r = None).
Proof.
  destruct (call_returns op w) as (r & w' & Hcall). exists r.
  rewrite Hcall. split; [reflexivity|]. revert w r w' Hcall.
  change (yields
            (fun r =>
               (success r = true ->
                is_Some (result_data r) /\ is_Some (fromCache r)
                /\ error r = None)
               /\ (success r = false ->
                   is_Some (error r) /\ result_data r = None
                   /\ fromCache r = None))
            (call op)).
  assert (Hfail : forall message,
             yields
               (fun r =>
                  (success r = true ->
                   is_Some (result_data r) /\ is_Some (fromCache r)
                   /\ error r = None)
                  /\ (success r = false ->
                      is_Some (error r) /\ result_data r = None
                      /\ fromCache r = None))
               (mret (failure message))).
  { intros message. apply yields_ret. split; [discriminate|].
    intros _. simpl. eauto. }
  destruct op as [query options|useCache|bookId useCache]; simpl;
    [unfold searchBooks | unfold getAllBooks | unfold getBookDetails];
    (apply yields_try_catch; [|intros e; apply Hfail]);
    repeat first
      [ apply Hfail
      | apply yields_from_cache; intros d; simpl;
        split; [eauto | discriminate]
      | apply yields_ret; simpl; split; [eauto | discriminate]
      | apply yields_bind; intros ?
      | match goal with
        | |- yields _ (match ?x with _ => _ end) => destruct x
        end ].
Qed.

(** X5: no public operation changes the settings of the service (TTL,
    result bound, timeout, base URL), nor the user e-mail. *)
Theorem operations_keep_setup (op : Operation) (w : World) :
  let w' := (call op w).2 in
  cacheTimeout w' = cacheTimeout w
  /\ maxResults w' = maxResults w
  /\ timeout w' = timeout w
  /\ baseURL w' = baseURL w
  /\ userEmail w' = userEmail w.
Proof.
  intros w'. destruct (call op w) as [o w1] eqn:Hcall.
  destruct (advances_call op _ _ _ Hcall) as (Hs & _). unfold w'. simpl.
  unfold same_setup in Hs. tauto.
Qed.

(** X6: whatever requests a public operation sends after
    [setUserEmail(email)] go to the base URL of the service and carry
    [email] as their [Authorization] header when it is a non-empty string,
    and no such header otherwise; after [clearAuthorization()] no request
    carries one. *)
Theorem requests_carry_identity (email : option jsstring) (op : Operation)
    (w : World) :
  (exists later,
      effects ((setUserEmail email;; call op) w).2 = later ++ effects w
      /\ forall req,
           In (Fetch req) later ->
           authorization req
           = match email with Some (c :: e) => Some (c :: e) | _ => None end
           /\ exists endpoint, url req = baseURL w ++ endpoint)
  /\ (exists later,
        effects ((clearAuthorization;; call op) w).2 = later ++ effects w
        /\ forall req,
             In (Fetch req) later ->
             authorization req = None
             /\ exists endpoint, url req = baseURL w ++ endpoint).
Proof.
  assert (H : forall e,
             exists later,
               effects (call op (with_userEmail e w)).2 = later ++ effects w
               /\ forall req, In (Fetch req) later ->
                              sent_by (with_userEmail e w) req).
  { intros e. destruct (call op (with_userEmail e w)) as [o w1] eqn:Hcall.
    destruct (advances_call op _ _ _ Hcall) as (_ & _ & later & He & Hr).
    exists later. split; [exact He | exact Hr]. }
  split.
  - destruct (H email) as (later & He & Hr). exists later.
    split; [exact He|]. intros req Hin. exact (Hr req Hin).
  - destruct (H None) as (later & He & Hr). exists later.
    split; [exact He|]. intros req Hin. exact (Hr req Hin).
Qed.

Lemma accounted_call (op : Operation) : accounted (call op).
Proof.
  destruct op; [apply accounted_searchBooks | apply accounted_getAllBooks
                | apply accounted_getBookDetails].
Qed.

(** X7: a call of a public operation sends at most one request (nothing
    is retried): none when the result is served from the cache, and
    exactly one when the result is marked as not coming from the cache. *)
Theorem requests_match_result (op : Operation) (w : World) :
  exists later,
    effects (call op w).2 = later ++ effects w
    /\ (fetches later <= 1)%nat
    /\ forall r,
         (call op w).1 = Return r ->
         (fromCache r = Some true -> fetches later = 0%nat)
         /\ (fromCache r = Some false -> fetches later = 1%nat).
Proof.
  destruct (call op w) as [o w'] eqn:Hcall.
  exact (accounted_call op _ _ _ Hcall).
Qed.

(** X8: a call with [useCache] set to [false] neither reads nor writes
    the cache: the entries are what they were, and the only effects are
    requests. *)
Theorem uncached_calls_bypass_cache (op : Operation) (w : World) :
  without_cache op ->
  cache (call op w).2 = cache w
  /\ exists later,
       effects (call op w).2 = later ++ effects w
       /\ Forall (fun e => exists req, e = Fetch req) later.
Proof.
  intros Hop. destruct (call op w) as [o w'] eqn:Hcall.
  destruct (bypasses_cache_call op Hop _ _ _ Hcall) as (Hc & later & He & Hf).
  split; [exact Hc|]. exists later. split; [exact He|].
  eapply Forall_impl; [exact Hf|]. intros [req| | | | | |]; try discriminate.
  eauto.
Qed.

Lemma uncached_calls_bypass_cache_witness :
  let w := cached_search_world in
  let op := SearchBooks (Some (lit "dune"))
              {| opt_maxResults := None; opt_useCache := Some false |} in
  cache (call op w).2 = cache w
  /\ exists later,
       effects (call op w).2 = later ++ effects w
       /\ Forall (fun e => exists req, e = Fetch req) later.
Proof.
  intros w op. apply (uncached_calls_bypass_cache op w). reflexivity.
Defined.

(** ** The cache across calls *)

(** X9: [setCache] never throws and never evicts an entry that is not
    older than the TTL: after it, the cache holds nothing but the new
    entry (stamped with the time of the insertion) and entries it held
    before, and it still holds every one of these whose age, at the time
    of the sweep, is at most the TTL; so it grows by one entry at most. *)
Theorem setCache_keeps_fresh_entries (key : jsstring) (payload : Payload)
    (w : World) :
  let stored := {| data := payload; timestamp := clock w (ticks w) |} in
  let w' := (setCache key payload w).2 in
  (setCache key payload w).1 = Return tt
  /\ (forall k e, cache w' !! k = Some e ->
                  <[key := stored]> (cache w) !! k = Some e)
  /\ (forall k e, <[key := stored]> (cache w) !! k = Some e ->
                  clock w (S (ticks w)) - timestamp e <= cacheTimeout w ->
                  cache w' !! k = Some e)
  /\ (size (cache w') <= S (size (cache w)))%nat.
Proof.
  intros stored w'. subst w'.
  unfold setCache, clearOldCache, cache_set, cache_size, cache_delete_where,
    mbind, M_bind, Date_now, gets. simpl. fold stored.
  assert (Hsize : (size (<[key := stored]> (cache w))
                   <= S (size (cache w)))%nat).
  { destruct (cache w !! key) eqn:Hk.
    - rewrite map_size_insert_Some by eauto. lia.
    - rewrite map_size_insert_None by exact Hk. lia. }
  destruct (_ >? 100); simpl.
  - split; [reflexivity|]. split; [|split].
    + intros k e He. now apply map_lookup_filter_Some in He.
    + intros k e He Hage. apply map_lookup_filter_Some. split; [exact He|].
      simpl. destruct (Z.gtb_spec (clock w (S (ticks w)) - timestamp e)
                         (cacheTimeout w)); [lia | reflexivity].
    + etrans; [|exact Hsize]. apply map_subseteq_size, map_filter_subseteq.
  - split; [reflexivity|]. split; [tauto|]. split; [tauto | exact Hsize].
Qed.

Lemma cached_under_same_setup (w w' : World) (op : Operation) :
  maxResults w' = maxResults w -> cached_under w' op = cached_under w op.
Proof.
  intros Hm. destruct op as [[q|] options| |]; simpl; try reflexivity.
  unfold searchCacheKey. now rewrite Hm.
Qed.

(** X10: when a call that uses the cache got its answer from the network,
    the same call repeated while the clock stays within one TTL is
    answered from the cache with the same data, and without any
    request. *)
Theorem repeated_call_served_from_cache (op : Operation) (w w' : World)
    (r : Result) (key : jsstring) :
  cached_under w op = Some key ->
  call op w = (Return r, w') ->
  success r = true ->
  fromCache r = Some false ->
  within_ttl w w' ->
  exists w'',
    call op w'
    = (Return {| success := true; result_data := result_data r;
                 totalItems := None; fromCache := Some true;
                 error := None |}, w'')
    /\ effects w'' = CacheGet key :: CacheGet key :: effects w'.
Proof.
  intros Hkey Hcall Hok Hfc Hwin.
  destruct (call_stores op w w' r key Hkey Hcall Hok Hfc Hwin)
    as (e & k & He & Hdata & Hts & Hk).
  destruct (advances_call op _ _ _ Hcall) as (Hs & _).
  assert (Hclock : clock w' = clock w) by apply Hs.
  assert (Httl : cacheTimeout w' = cacheTimeout w) by apply Hs.
  assert (Hmax : maxResults w' = maxResults w) by apply Hs.
  rewrite <- (cached_under_same_setup w w' op Hmax) in Hkey.
  eexists. rewrite (call_fresh_hit op w' key e Hkey He).
  - rewrite Hdata. split; reflexivity.
  - rewrite Hclock, Httl, Hts. apply Hwin; lia.
Qed.

Lemma repeated_call_served_from_cache_witness :
  exists w' w'',
    call (GetAllBooks true) answers_no_books
    = (Return {| success := true; result_data := Some (Books []);
                 totalItems := None; fromCache := Some false;
                 error := None |}, w')
    /\ call (GetAllBooks true) w'
       = (Return {| success := true; result_data := Some (Books []);
                    totalItems := None; fromCache := Some true;
                    error := None |}, w'')
    /\ effects w'' = CacheGet (lit "all_books") :: CacheGet (lit "all_books")
                     :: effects w'.
Proof.
  eexists. 
  assert (Hfirst : call (GetAllBooks true) answers_no_books
                   = (Return {| success := true;
                                result_data := Some (Books []);
                                totalItems := None; fromCache := Some false;
                                error := None |},
                      (call (GetAllBooks true) answers_no_books).2))
    by reflexivity.
  destruct (repeated_call_served_from_cache (GetAllBooks true)
              answers_no_books _ _ (lit "all_books") eq_refl Hfirst
              eq_refl eq_refl)
    as (w'' & Hsecond & Hlog).
  - intros i j _ _ _. vm_compute. reflexivity.
  - exists w''. split; [exact Hfirst|]. split; [exact Hsecond | exact Hlog].
Defined.

(** X11: [clearAllCache] empties the cache, whatever the age of its
    entries ([getCacheStats] then counts none); and the catalogue reload
    that follows it in the refresh of the store screen is never answered
    from the cache: it always sends exactly one request. *)
Theorem cleared_cache_serves_nothing (w : World) :
  cache (clearAllCache w).2 = ∅
  /\ (exists stats,
        (getCacheStats (clearAllCache w).2).1 = Return stats
        /\ entries stats = 0)
  /\ exists r later,
       (refresh_catalogue w).1 = Return r
       /\ fromCache r <> Some true
       /\ effects (refresh_catalogue w).2 = later ++ effects w
       /\ fetches later = 1%nat.
Proof.
  split; [reflexivity|]. split; [eexists; split; reflexivity|].
  unfold refresh_catalogue.
  rewrite (bindM clearAllCache _ w _ tt eq_refl).
  set (w1 := with_effect CacheClear (with_cache ∅ w)).
  assert (Hhit : cache_hit true (lit "all_books") w1
                 = (Return false, with_effect (CacheGet (lit "all_books")) w1))
    by reflexivity.
  unfold getAllBooks, try_catch. rewrite (bindM _ _ _ _ _ Hhit).
  set (w2 := with_effect (CacheGet (lit "all_books")) w1).
  match goal with
  | |- context [ (makeRequest ?m ?ep ?b ≫= ?k) w2 ] =>
      set (rest := makeRequest m ep b ≫= k)
  end.
  assert (Hone : sends_one rest).
  { apply sends_one_bind; [apply sends_one_makeRequest|].
    intros response. hush. }
  assert (Hfetched : fetched rest) by (unfold rest; fetched_tail).
  destruct (rest w2) as [[r|e] w3] eqn:Hrest;
    destruct (Hone _ _ _ Hrest) as (later & He & Hf).
  - exists r, (later ++ [CacheGet (lit "all_books"); CacheClear]).
    split; [reflexivity|]. split; [exact (Hfetched _ _ _ Hrest)|].
    simpl. rewrite He, <- app_assoc. split; [reflexivity|].
    rewrite fetches_app, Hf. reflexivity.
  - eexists _, (later ++ [CacheGet (lit "all_books"); CacheClear]).
    split; [reflexivity|]. split; [discriminate|].
    simpl. rewrite He, <- app_assoc. split; [reflexivity|].
    rewrite fetches_app, Hf. reflexivity.
Qed.

(** X12: a change of identity leaves the cache alone: an entry stored
    while one user (or none) was set is served, when still fresh, to a
    call made after [setUserEmail] or [clearAuthorization], and no request
    is sent for it. *)
Theorem identity_change_keeps_cache (op : Operation) (w : World)
    (key : jsstring) (e : CacheEntry) (email : option jsstring) :
  cached_under w op = Some key ->
  cache w !! key = Some e ->
  clock w (ticks w) - timestamp e < cacheTimeout w ->
  ((setUserEmail email;; call op) w).1 = Return (served e)
  /\ ((clearAuthorization;; call op) w).1 = Return (served e)
  /\ effects ((setUserEmail email;; call op) w).2
     = CacheGet key :: CacheGet key :: effects w.
Proof.
  intros Hkey He Hfresh.
  assert (H : forall u,
             call op (with_userEmail u w)
             = (Return (served e),
                with_effect (CacheGet key)
                  (with_ticks (S (ticks (with_userEmail u w)))
                     (with_effect (CacheGet key) (with_userEmail u w))))).
  { intros u. apply call_fresh_hit; [|exact He | exact Hfresh].
    now rewrite (cached_under_same_setup w). }
  split; [|split].
  - rewrite (bindM (setUserEmail email) _ w _ tt eq_refl). now rewrite H.
  - rewrite (bindM clearAuthorization _ w _ tt eq_refl). now rewrite H.
  - rewrite (bindM (setUserEmail email) _ w _ tt eq_refl). now rewrite H.
Qed.

Lemma identity_change_keeps_cache_witness :
  let op := SearchBooks (Some (lit "dune"))
              {| opt_maxResults := None; opt_useCache := None |} in
  let e := {| data := Books []; timestamp := 0 |} in
  let email := Some (lit "ana@example.com") in
  ((setUserEmail email;; call op) cached_search_world).1 = Return (served e)
  /\ ((clearAuthorization;; call op) cached_search_world).1
     = Return (served e)
  /\ effects ((setUserEmail email;; call op) cached_search_world).2
     = CacheGet (search_key (lit "dune") 20)
       :: CacheGet (search_key (lit "dune") 20)
       :: effects cached_search_world.
Proof.
  intros op e email.
  apply (identity_change_keeps_cache op cached_search_world
           (search_key (lit "dune") 20) e email).
  - reflexivity.
  - reflexivity.
  - vm_compute. reflexivity.
Defined.

(** ** Keys *)

Lemma split_at_first (x : N) (a a' b b' : jsstring) :
  ~ In x a -> ~ In x a' -> a ++ x :: b = a' ++ x :: b' -> a = a' /\ b = b'.
Proof.
  revert a'. induction a as [|y a IH]; intros [|y' a'] Ha Ha' H; simpl in *.
  - now injection H as <-.
  - injection H as <- _. tauto.
  - injection H as -> _. tauto.
  - injection H as <- H. destruct (IH a') as [-> ->]; tauto.
Qed.

Lemma split_at_last (x : N) (a a' b b' : jsstring) :
  ~ In x b -> ~ In x b' -> a ++ x :: b = a' ++ x :: b' -> a = a' /\ b = b'.
Proof.
  intros Hb Hb' H. apply (f_equal (@rev N)) in H.
  rewrite !rev_app_distr in H. simpl in H. rewrite <- !app_assoc in H.
  simpl in H.
  apply split_at_first in H as [H1 H2];
    [| now rewrite <- in_rev | now rewrite <- in_rev].
  apply (f_equal (@rev N)) in H1, H2. rewrite !rev_involutive in H1, H2.
  tauto.
Qed.

Lemma digits_of_uint_range (u : Decimal.uint) (c : N) :
  In c (digits_of_uint u) -> (48 <= c <= 57)%N.
Proof.
  induction u; simpl; intros H; try tauto;
    destruct H as [<-|H]; try lia; auto.
Qed.

(** The decimal rendering of a number holds no underscore. *)
Lemma number_to_string_no_underscore (z : Z) :
  ~ In 95%N (number_to_string z).
Proof.
  unfold number_to_string. destruct (Z.to_int z) as [u|u]; simpl.
  - intros H. apply digits_of_uint_range in H. lia.
  - intros [H|H]; [discriminate H|]. apply digits_of_uint_range in H. lia.
Qed.

Lemma search_key_inj (q q' : jsstring) (m m' : Z) :
  search_key q m = search_key q' m' -> q = q' /\ m = m'.
Proof.
  unfold search_key. intros H. apply app_inv_head in H.
  change (lit "_") with [95%N] in H. simpl in H.
  apply split_at_last in H as [-> H];
    try apply number_to_string_no_underscore.
  split; [reflexivity | now apply number_to_string_inj].
Qed.

Lemma cached_under_search (w : World) (query : option jsstring)
    (o : SearchOptions) (key : jsstring) :
  cached_under w (SearchBooks query o) = Some key ->
  exists q, query = Some q /\ key = searchCacheKey w q o.
Proof.
  destruct query as [q|]; [|simpl; discriminate]. unfold cached_under.
  destruct (query_rejected (Some q)); [discriminate|].
  destruct (default true (opt_useCache o)); [|discriminate].
  intros [= <-]. eauto.
Qed.

Lemma cached_under_all (w : World) (useCache : bool) (key : jsstring) :
  cached_under w (GetAllBooks useCache) = Some key -> key = lit "all_books".
Proof. destruct useCache; simpl; [congruence | discriminate]. Qed.

Lemma cached_under_details (w : World) (bookId : option jsstring)
    (useCache : bool) (key : jsstring) :
  cached_under w (GetBookDetails bookId useCache) = Some key ->
  exists id, bookId = Some id /\ key = lit "book_" ++ id.
Proof.
  destruct bookId as [[|c id]|], useCache; simpl; try discriminate.
  intros [= <-]. eauto.
Qed.

(** X13: cache keys do not collide: two calls share a key only when they
    are calls of the same operation with the same parameters (the same
    trimmed query and the same result bound for two searches, the same
    identifier for two detail requests). *)
Theorem cache_keys_do_not_collide (w : World) (op1 op2 : Operation)
    (key : jsstring) :
  cached_under w op1 = Some key ->
  cached_under w op2 = Some key ->
  match op1, op2 with
  | SearchBooks (Some q1) o1, SearchBooks (Some q2) o2 =>
      trim q1 = trim q2
      /\ default (maxResults w) (opt_maxResults o1)
         = default (maxResults w) (opt_maxResults o2)
  | GetAllBooks _, GetAllBooks _ => True
  | GetBookDetails id1 _, GetBookDetails id2 _ => id1 = id2
  | _, _ => False
  end.
Proof.
  intros H1 H2.
  destruct op1 as [query1 o1|u1|id1 u1], op2 as [query2 o2|u2|id2 u2];
    repeat match goal with
           | H : cached_under _ (SearchBooks _ _) = Some _ |- _ =>
               apply cached_under_search in H as (? & -> & H)
           | H : cached_under _ (GetAllBooks _) = Some _ |- _ =>
               apply cached_under_all in H
           | H : cached_under _ (GetBookDetails _ _) = Some _ |- _ =>
               apply cached_under_details in H as (? & -> & H)
           end;
    subst key; try exact I; try discriminate H2.
  - unfold searchCacheKey in H2. now apply search_key_inj in H2 as [-> ->].
  - apply app_inv_head in H2. now rewrite H2.
Qed.

Lemma cache_keys_do_not_collide_witness :
  let w := new_service (fun _ => 0) (fun _ => NetworkFailure) in
  trim (lit " dune ") = trim (lit "dune")
  /\ default (maxResults w) (Some 20) = default (maxResults w) None.
Proof.
  intros w.
  apply (cache_keys_do_not_collide w
           (SearchBooks (Some (lit " dune "))
              {| opt_maxResults := Some 20; opt_useCache := None |})
           (SearchBooks (Some (lit "dune"))
              {| opt_maxResults := None; opt_useCache := Some true |})
           (lit "search_dune_20"));
    reflexivity.
Defined.

(** ** Configuration *)

Lemma assign_if_truthy_run (field : option Z) (assign : Z -> World -> World)
    (w : World) :
  assign_if_truthy field assign w
  = (Return tt,
     match field with
     | Some v => if v =? 0 then w else assign v w
     | None => w
     end).
Proof.
  unfold assign_if_truthy. destruct field as [v|]; [|reflexivity].
  now destruct (v =? 0).
Qed.

Lemma updateConfiguration_settings (config : ConfigUpdate) (w : World) :
  exists w',
    updateConfiguration config w = (Return tt, w')
    /\ cache w' = cache w
    /\ userEmail w' = userEmail w
    /\ baseURL w' = baseURL w
    /\ clock w' = clock w
    /\ ticks w' = ticks w
    /\ timeout w' = effective (new_timeout config) (timeout w)
    /\ maxResults w' = effective (new_maxResults config) (maxResults w)
    /\ cacheTimeout w'
       = effective (new_cacheTimeout config) (cacheTimeout w).
Proof.
  unfold updateConfiguration.
  rewrite (bindM _ _ _ _ _ (assign_if_truthy_run _ _ _)).
  rewrite (bindM _ _ _ _ _ (assign_if_truthy_run _ _ _)).
  rewrite (bindM _ _ _ _ _ (assign_if_truthy_run _ _ _)).
  destruct config as [[t|] [n|] [c|]]; simpl;
    repeat match goal with |- context [ ?v =? 0 ] => destruct (v =? 0) end;
    eexists; repeat split.
Qed.

(** X14: [updateConfiguration] replaces a setting by the value given for
    it, except that a missing value and the value 0 leave the setting as
    it was (so a TTL of 0 cannot be configured); it leaves the cache, the
    user and the base URL alone, and [getConfiguration] then reports the
    new settings together with the number of cache entries. *)
Theorem updateConfiguration_then_get (config : ConfigUpdate) (w : World) :
  exists w' w'',
    updateConfiguration config w = (Return tt, w')
    /\ cache w' = cache w
    /\ userEmail w' = userEmail w
    /\ getConfiguration w'
       = (Return {| cfg_baseURL := baseURL w;
                    cfg_endpoints := endpoints;
                    cfg_timeout := effective (new_timeout config) (timeout w);
                    cfg_maxResults :=
                      effective (new_maxResults config) (maxResults w);
                    cfg_cacheTimeout :=
                      effective (new_cacheTimeout config) (cacheTimeout w);
                    cfg_cacheSize := Z.of_nat (size (cache w)) |}, w'').
Proof.
  destruct (updateConfiguration_settings config w)
    as (w' & Hup & Hcache & Huser & Hbase & _ & _ & Ht & Hn & Httl).
  exists w', (with_effect CacheSize w').
  split; [exact Hup|]. split; [exact Hcache|]. split; [exact Huser|].
  unfold getConfiguration, mbind, M_bind, gets, cache_size, mret, M_ret.
  simpl. now rewrite Hbase, Ht, Hn, Httl, Hcache.
Qed.

(** X15: feeding the settings [getConfiguration] reports back to
    [updateConfiguration] changes none of them, whatever they are. *)
Theorem configuration_round_trip (w : World) :
  let restore :=
    cfg ← getConfiguration;
    updateConfiguration {| new_timeout := Some (cfg_timeout cfg);
                           new_maxResults := Some (cfg_maxResults cfg);
                           new_cacheTimeout := Some (cfg_cacheTimeout cfg) |} in
  (restore w).1 = Return tt
  /\ same_setup w (restore w).2
  /\ cache (restore w).2 = cache w.
Proof.
  intros restore. unfold restore, getConfiguration, updateConfiguration.
  unfold mbind, M_bind, gets, cache_size, assign_if_truthy. simpl.
  destruct (Z.eqb_spec (timeout w) 0) as [Ht|Ht],
           (Z.eqb_spec (maxResults w) 0) as [Hm|Hm],
           (Z.eqb_spec (cacheTimeout w) 0) as [Hc|Hc]; simpl;
    repeat split.
Qed.

(** X16: a change of the TTL applies to the entries already in the cache:
    after [updateConfiguration] with a TTL [t] other than 0, a read of an
    entry succeeds exactly when its age is below [t], whatever the TTL was
    when the entry was stored. *)
Theorem new_ttl_rejudges_entries (w : World) (key : jsstring)
    (e : CacheEntry) (t : Z) (other : ConfigUpdate) :
  cache w !! key = Some e ->
  t <> 0 ->
  let config := {| new_timeout := new_timeout other;
                   new_maxResults := new_maxResults other;
                   new_cacheTimeout := Some t |} in
  ((updateConfiguration config;; isValidCache key) w).1
  = Return (clock w (ticks w) - timestamp e <? t).
Proof.
  intros He Ht config.
  destruct (updateConfiguration_settings config w)
    as (w' & Hup & Hcache & _ & _ & Hclock & Hticks & _ & _ & Httl).
  rewrite (bindM _ _ _ _ _ Hup).
  simpl in Httl. destruct (Z.eqb_spec t 0) as [|_]; [contradiction|].
  unfold isValidCache, cache_get, mbind, M_bind, Date_now, gets. simpl.
  rewrite Hcache, He. simpl. rewrite Httl, Hclock, Hticks.
  now destruct (_ <? _).
Qed.

Lemma new_ttl_rejudges_entries_witness :
  let config := {| new_timeout := Some 30000; new_maxResults := None;
                   new_cacheTimeout := Some 60000 |} in
  ((updateConfiguration config;; isValidCache (lit "all_books"))
     stale_world).1
  = Return (clock stale_world (ticks stale_world) - 1700000000000 <? 60000).
Proof.
  intros config.
  apply (new_ttl_rejudges_entries stale_world (lit "all_books")
           {| data := Books []; timestamp := 1700000000000 |} 60000
           {| new_timeout := Some 30000; new_maxResults := None;
              new_cacheTimeout := None |}).
  - reflexivity.
  - discriminate.
Defined.

(** ** Years *)

Lemma first_year_range (s : jsstring) (y : Z) :
  first_year s = Some y -> 0 <= y <= 9999.
Proof.
  induction s as [|a s IH]; [discriminate|]. simpl.
  destruct s as [|b [|c [|d rest]]]; try discriminate.
  destruct (is_digit a && is_digit b && is_digit c && is_digit d) eqn:Hd;
    [|exact IH].
  intros [= <-]. unfold is_digit in Hd.
  rewrite !andb_true_iff, !N.leb_le in Hd. lia.
Qed.

Lemma first_year_has_year (s : jsstring) :
  has_year s -> exists y, first_year s = Some y.
Proof.
  intros (pre & a & b & c & d & post & -> & Hd).
  induction pre as [|x pre IH]; simpl.
  - rewrite Hd. eauto.
  - destruct (pre ++ a :: b :: c :: d :: post) as [|x1 [|x2 [|x3 rest]]] eqn:E.
    + now destruct pre.
    + destruct pre as [|? [|? ?]]; discriminate E.
    + destruct pre as [|? [|? [|? ?]]]; discriminate E.
    + destruct (is_digit x && is_digit x1 && is_digit x2 && is_digit x3);
        eauto.
Qed.

Lemma first_year_None (s : jsstring) :
  first_year s = None -> ~ has_year s.
Proof.
  intros H Hy. apply first_year_has_year in Hy as [y Hy]. congruence.
Qed.

Lemma has_year_first_year (s : jsstring) (y : Z) :
  first_year s = Some y -> has_year s.
Proof.
  induction s as [|a s IH]; [discriminate|]. simpl.
  destruct s as [|b [|c [|d rest]]]; try discriminate.
  destruct (is_digit a && is_digit b && is_digit c && is_digit d) eqn:Hd.
  - intros _. now exists [], a, b, c, d, rest.
  - intros H. destruct (IH H) as (pre & a' & b' & c' & d' & post & E & Hd').
    exists (a :: pre), a', b', c', d', post. split; [|exact Hd'].
    simpl. now rewrite E.
Qed.

(** X17: on a string, [extractYear] never throws; it gives a whole number
    from 0 to 9999 when the string holds four consecutive decimal digits
    somewhere, and [null] exactly when it holds none. *)
Theorem extractYear_on_strings (s : jsstring) :
  (exists y, extractYear (VString s) = Return (VNumber y)
             /\ 0 <= y <= 9999 /\ has_year s)
  \/ (extractYear (VString s) = Return VNull /\ ~ has_year s).
Proof.
  unfold extractYear. destruct s as [|c s]; simpl negb; cbv iota.
  - right. split; [reflexivity|].
    intros (pre & a & b & c & d & post & E & _). now destruct pre.
  - destruct (first_year (c :: s)) as [y|] eqn:Hy.
    + left. exists y. split; [reflexivity|].
      split; [exact (first_year_range _ _ Hy)|].
      exact (has_year_first_year _ _ Hy).
    + right. split; [reflexivity | exact (first_year_None _ Hy)].
Qed.

Lemma pad_digit (d : Z) :
  0 <= d <= 9 ->
  is_digit (Z.to_N (48 + d)) = true /\ Z.of_N (Z.to_N (48 + d) - 48) = d.
Proof.
  intros Hd. unfold is_digit. rewrite andb_true_iff, !N.leb_le. lia.
Qed.

(** X18: a date that starts with its year on four digits (as ISO dates
    do) gives that year: for a year from 0 to 9999 written on four digits
    and followed by anything, [extractYear] returns the year. *)
Theorem extractYear_leading_year (y : Z) (rest : jsstring) :
  0 <= y <= 9999 ->
  extractYear (VString (pad 4 y ++ rest)) = Return (VNumber y).
Proof.
  intros Hy.
  assert (Hmod : forall n, 0 <= n mod 10 <= 9).
  { intros n. pose proof (Z.mod_pos_bound n 10). lia. }
  pose proof (Hmod (y / 10 / 10 / 10)) as H3.
  pose proof (Hmod (y / 10 / 10)) as H2.
  pose proof (Hmod (y / 10)) as H1.
  pose proof (Hmod y) as H0.
  destruct (pad_digit _ H3) as [D3 V3], (pad_digit _ H2) as [D2 V2],
           (pad_digit _ H1) as [D1 V1], (pad_digit _ H0) as [D0 V0].
  assert (Hpad : pad 4 y
                 = [Z.to_N (48 + y / 10 / 10 / 10 mod 10);
                    Z.to_N (48 + y / 10 / 10 mod 10);
                    Z.to_N (48 + y / 10 mod 10);
                    Z.to_N (48 + y mod 10)]) by reflexivity.
  rewrite Hpad. clear Hpad.
  set (d3 := Z.to_N (48 + y / 10 / 10 / 10 mod 10)) in *.
  set (d2 := Z.to_N (48 + y / 10 / 10 mod 10)) in *.
  set (d1 := Z.to_N (48 + y / 10 mod 10)) in *.
  set (d0 := Z.to_N (48 + y mod 10)) in *.
  unfold extractYear.
  change (truthy (VString ([d3; d2; d1; d0] ++ rest))) with true.
  change (first_year ([d3; d2; d1; d0] ++ rest))
    with (if is_digit d3 && is_digit d2 && is_digit d1 && is_digit d0
          then Some (Z.of_N ((((d3 - 48) * 10 + (d2 - 48)) * 10
                              + (d1 - 48)) * 10 + (d0 - 48)))
          else first_year ((d2 :: d1 :: d0 :: rest))).
  rewrite D3, D2, D1, D0. cbn [andb negb]. do 2 f_equal.
  repeat (rewrite N2Z.inj_add || rewrite N2Z.inj_mul).
  rewrite V3, V2, V1, V0.
  change (Z.of_N 10) with 10.
  pose proof (Z.div_mod y 10 ltac:(lia)) as E0.
  pose proof (Z.div_mod (y / 10) 10 ltac:(lia)) as E1.
  pose proof (Z.div_mod (y / 10 / 10) 10 ltac:(lia)) as E2.
  assert (E3 : y / 10 / 10 / 10 mod 10 = y / 10 / 10 / 10).
  { apply Z.mod_small. split; [repeat apply Z.div_pos; lia|].
    repeat (apply Z.div_lt_upper_bound; [lia|]). lia. }
  lia.
Qed.

Lemma extractYear_leading_year_witness :
  extractYear (VString (pad 4 1997 ++ lit "-06-26")) = Return (VNumber 1997).
Proof. apply extractYear_leading_year. lia. Defined.

(** ** Normalised records *)

Lemma js_or_truthy (v fallback : value) :
  truthy fallback = true -> truthy (js_or v fallback) = true.
Proof. intros H. unfold js_or. now destruct (truthy v) eqn:Hv. Qed.

Lemma js_or_null_or_truthy (v fallback : value) :
  null_or_truthy fallback -> null_or_truthy (js_or v fallback).
Proof.
  intros H. unfold js_or. destruct (truthy v) eqn:Hv; [now right | exact H].
Qed.

Lemma null_or_truthy_null : null_or_truthy VNull.
Proof. now left. Qed.

Lemma prop_or_null (obj : value) (name : string) (v : value) :
  prop_or obj name VNull = Return v -> null_or_truthy v.
Proof.
  unfold prop_or. intros H. apply bind_Return in H as (x & _ & [= <-]).
  apply js_or_null_or_truthy, null_or_truthy_null.
Qed.

Lemma prop_or_truthy (obj : value) (name : string) (fallback v : value) :
  truthy fallback = true ->
  prop_or obj name fallback = Return v -> truthy v = true.
Proof.
  unfold prop_or. intros Hf H. apply bind_Return in H as (x & _ & [= <-]).
  now apply js_or_truthy.
Qed.

Lemma lacks_id_false (book : value) :
  lacks_id book = Return false ->
  exists id, get_prop book "id" = Return id /\ truthy id = true.
Proof.
  unfold lacks_id. destruct (truthy book); [|discriminate]. simpl.
  destruct (get_prop book "id") as [id|]; [|discriminate]. simpl.
  intros [= H]. exists id. split; [reflexivity|]. now destruct (truthy id).
Qed.

Lemma extractYear_result (dateString year : value) :
  extractYear dateString = Return year ->
  year = VNull \/ exists y, year = VNumber y /\ 0 <= y <= 9999.
Proof.
  unfold extractYear.
  destruct (negb (truthy dateString)); [intros [= <-]; now left|].
  destruct dateString; try discriminate.
  destruct (first_year s) as [y|] eqn:Hy; intros [= <-]; [right | now left].
  exists y. split; [reflexivity | exact (first_year_range _ _ Hy)].
Qed.

Lemma prop_or_zero (obj : value) (name : string) (v : value) :
  prop_or obj name (VNumber 0) = Return v ->
  v = VNumber 0 \/ truthy v = true.
Proof.
  unfold prop_or. intros H. apply bind_Return in H as (x & _ & [= <-]).
  unfold js_or. destruct (truthy x) eqn:Hx; [now right | now left].
Qed.

(** X19: every field of a record that comes out of [transformBookData]:
    [bookId] is the raw identifier and is truthy; [titulo], [idioma],
    [categorias] and [industryIdentifiers] are truthy, their defaults
    filling them; [autor] is a non-empty string; [portadaUrl],
    [sinopsis], [fechaPublicacion], [editorial], [numeroPaginas], [isbn],
    [previewLink], [infoLink] and [rating] are [null] or truthy (never
    [undefined], an empty string or 0); [anoPublicacion] is [null] or a
    number from 0 to 9999; [ratingsCount] is 0 or truthy; the four
    entries of [imageLinks] are those of the raw record as they came
    ([undefined] when absent); [generos] is [categorias], wrapped in a
    list when that is a single string; and [transformedAt] is the time of
    the normalisation. *)
Theorem normalised_record_fields (book : value) (w w' : World)
    (r : BookRecord) :
  transformBookData book w = (Return (Some r), w') ->
  (get_prop book "id" = Return (bookId r) /\ truthy (bookId r) = true)
  /\ Forall (fun v => truthy v = true)
       [titulo r; idioma r; categorias r; industryIdentifiers r]
  /\ (exists s, autor r = VString s /\ s <> [])
  /\ Forall null_or_truthy
       [portadaUrl r; sinopsis r; fechaPublicacion r; editorial r;
        numeroPaginas r; isbn r; previewLink r; infoLink r; rating r]
  /\ (anoPublicacion r = VNull
      \/ exists y, anoPublicacion r = VNumber y /\ 0 <= y <= 9999)
  /\ (ratingsCount r = VNumber 0 \/ truthy (ratingsCount r) = true)
  /\ (exists links,
        prop_or book "imageLinks" (VObject []) = Return links
        /\ get_prop links "thumbnail" = Return (thumbnail (imageLinks r))
        /\ get_prop links "smallThumbnail" = Return (small (imageLinks r))
        /\ get_prop links "medium" = Return (medium (imageLinks r))
        /\ get_prop links "large" = Return (large (imageLinks r)))
  /\ generos r = wrap_string (categorias r)
  /\ transformedAt r = VString (toISOString (clock w (ticks w))).
Proof.
  rewrite transformBookData_run. intros H.
  destruct (lacks_id book) as [[|]|] eqn:Hid; try discriminate H.
  destruct (build_record book) as [fields|] eqn:Hb; try discriminate H.
  injection H as <- _.
  destruct (lacks_id_false _ Hid) as (id & Hget & Htruthy).
  unfold build_record in Hb.
  repeat (apply bind_Return in Hb as (? & ? & Hb)).
  injection Hb as <-. simpl.
  repeat match goal with
         | H : prop_or _ _ (VArray []) = Return ?v |- _ =>
             lazymatch goal with
             | _ : truthy v = true |- _ => fail
             | _ => pose proof (prop_or_truthy _ _ (VArray []) _ eq_refl H)
             end
         end.
  repeat match goal with
         | H : prop_or _ _ VNull = Return _ |- _ => apply prop_or_null in H
         | H : prop_or _ _ (VString _) = Return _ |- _ =>
             apply prop_or_truthy in H; [|reflexivity]
         | H : prop_or _ _ (VNumber 0) = Return _ |- _ =>
             apply prop_or_zero in H
         | H : extractYear _ = Return _ |- _ => apply extractYear_result in H
         end.
  split; [split; congruence|].
  split; [repeat first [apply Forall_nil_2 | apply Forall_cons_2];
          assumption|].
  split.
  { unfold js_or. simpl.
    match goal with |- context [ VString ?j ] =>
      destruct j as [|c j]; simpl; eexists; split; try reflexivity;
      discriminate
    end. }
  split.
  { repeat first [apply Forall_nil_2 | apply Forall_cons_2];
      try assumption;
      repeat apply js_or_null_or_truthy; apply null_or_truthy_null. }
  split; [assumption|]. split; [assumption|].
  split; [eexists; repeat (split; [eassumption|]); eassumption|].
  split; [congruence | reflexivity].
Qed.

Lemma normalised_record_fields_witness :
  exists r,
    (get_prop x1_foo "id" = Return (bookId r) /\ truthy (bookId r) = true)
    /\ Forall (fun v => truthy v = true)
         [titulo r; idioma r; categorias r; industryIdentifiers r]
    /\ (exists s, autor r = VString s /\ s <> [])
    /\ Forall null_or_truthy
         [portadaUrl r; sinopsis r; fechaPublicacion r; editorial r;
          numeroPaginas r; isbn r; previewLink r; infoLink r; rating r]
    /\ (anoPublicacion r = VNull
        \/ exists y, anoPublicacion r = VNumber y /\ 0 <= y <= 9999)
    /\ (ratingsCount r = VNumber 0 \/ truthy (ratingsCount r) = true)
    /\ (exists links,
          prop_or x1_foo "imageLinks" (VObject []) = Return links
          /\ get_prop links "thumbnail" = Return (thumbnail (imageLinks r))
          /\ get_prop links "smallThumbnail"
             = Return (small (imageLinks r))
          /\ get_prop links "medium" = Return (medium (imageLinks r))
          /\ get_prop links "large" = Return (large (imageLinks r)))
    /\ generos r = wrap_string (categorias r)
    /\ transformedAt r = VString (toISOString 0).
Proof.
  eexists.
  eapply (normalised_record_fields x1_foo
            (new_service (fun _ => 0) (fun _ => NetworkFailure))).
  reflexivity.
Defined.

(** X20: the cover of a normalised record is the first available image of
    the raw record, tried in the order [thumbnail], [smallThumbnail],
    [medium], [large], and [null] when the raw record has no image at
    all; the four links themselves are kept as they came. *)
Theorem cover_is_first_available_image (book : value) (w w' : World)
    (r : BookRecord) :
  transformBookData book w = (Return (Some r), w') ->
  exists links,
    prop_or book "imageLinks" (VObject []) = Return links
    /\ get_prop links "thumbnail" = Return (thumbnail (imageLinks r))
    /\ get_prop links "smallThumbnail" = Return (small (imageLinks r))
    /\ get_prop links "medium" = Return (medium (imageLinks r))
    /\ get_prop links "large" = Return (large (imageLinks r))
    /\ portadaUrl r
       = first_truthy [thumbnail (imageLinks r); small (imageLinks r);
                       medium (imageLinks r); large (imageLinks r)].
Proof.
  rewrite transformBookData_run. intros H.
  destruct (lacks_id book) as [[|]|]; try discriminate H.
  destruct (build_record book) as [fields|] eqn:Hb; try discriminate H.
  injection H as <- _.
  unfold build_record in Hb.
  repeat (apply bind_Return in Hb as (? & ? & Hb)).
  injection Hb as <-. simpl.
  eexists. repeat (split; [eassumption|]).
  unfold js_or.
  repeat match goal with |- context [ truthy ?v ] => destruct (truthy v) end;
    reflexivity.
Qed.

Lemma cover_is_first_available_image_witness :
  exists r links,
    prop_or x1_foo "imageLinks" (VObject []) = Return links
    /\ get_prop links "thumbnail" = Return (thumbnail (imageLinks r))
    /\ get_prop links "smallThumbnail" = Return (small (imageLinks r))
    /\ get_prop links "medium" = Return (medium (imageLinks r))
    /\ get_prop links "large" = Return (large (imageLinks r))
    /\ portadaUrl r
       = first_truthy [thumbnail (imageLinks r); small (imageLinks r);
                       medium (imageLinks r); large (imageLinks r)].
Proof.
  eexists.
  eapply (cover_is_first_available_image x1_foo
            (new_service (fun _ => 0) (fun _ => NetworkFailure))).
  reflexivity.
Defined.

Lemma transformBookData_normalisesb (book : value) (w : World) :
  if normalisesb book
  then exists r,
         transformBookData book w
         = (Return (Some r), with_ticks (S (ticks w)) w)
         /\ record_of book r
  else transformBookData book w = (Return None, w).
Proof.
  rewrite transformBookData_run. unfold normalisesb.
  destruct (lacks_id_returns book) as [[|] Hid]; rewrite Hid;
    [reflexivity|].
  destruct (build_record book) as [fields|] eqn:Hb; [|reflexivity].
  eexists. split; [reflexivity|].
  unfold record_of. unfold build_record in Hb.
  repeat (apply bind_Return in Hb as (? & ? & Hb)).
  injection Hb as <-. simpl. assumption.
Qed.

Lemma map_M_transformBookData (items : list value) (w : World) :
  exists mapped,
    map_M transformBookData items w
    = (Return mapped,
       with_ticks (ticks w + length (filter_Boolean mapped)) w)
    /\ Forall2 record_of (List.filter normalisesb items)
         (filter_Boolean mapped)
    /\ length mapped = length items.
Proof.
  revert w. induction items as [|book items IH]; intros w.
  - exists []. simpl. split; [|split; [constructor | reflexivity]].
    unfold mret, M_ret. f_equal. destruct w. unfold with_ticks. simpl.
    f_equal. lia.
  - rewrite map_M_cons.
    pose proof (transformBookData_normalisesb book w) as Hhead.
    simpl List.filter. destruct (normalisesb book).
    + destruct Hhead as (r & -> & Hr).
      destruct (IH (with_ticks (S (ticks w)) w)) as (mapped & -> & Hall & Hlen).
      exists (Some r :: mapped).
      split; [|split; [constructor; assumption | simpl; now rewrite Hlen]].
      f_equal. destruct w. unfold with_ticks. simpl. f_equal.
      change (filter_Boolean (Some r :: mapped))
        with (r :: filter_Boolean mapped).
      simpl. lia.
    + rewrite Hhead.
      destruct (IH w) as (mapped & -> & Hall & Hlen).
      exists (None :: mapped).
      split; [reflexivity|]. split; [exact Hall | simpl; now rewrite Hlen].
Qed.

(** X21: [transformBooksData] never throws; on a list it returns one
    record for each raw record that normalises, in the order of the list
    and with the identifier of its raw record, and nothing for the
    others; on anything that is not a list it returns the empty list.  It
    reads the clock once for each record it returns, and touches neither
    the cache nor the network. *)
Theorem transformBooksData_keeps_what_normalises (books : value)
    (w : World) :
  let kept :=
    match books with
    | VArray items => List.filter normalisesb items
    | _ => []
    end in
  exists records,
    transformBooksData books w
    = (Return records, with_ticks (ticks w + length records) w)
    /\ Forall2 record_of kept records.
Proof.
  assert (Hsame : with_ticks (ticks w + 0) w = w).
  { destruct w. unfold with_ticks. simpl. f_equal. lia. }
  destruct books; simpl;
    try (exists []; unfold mret, M_ret; simpl; rewrite Hsame;
         split; [reflexivity | constructor]).
  destruct (map_M_transformBookData items w) as (mapped & Hrun & Hall & _).
  exists (filter_Boolean mapped). split; [|exact Hall].
  unfold mbind, M_bind. rewrite Hrun. reflexivity.
Qed.

(* ===================================================================== *)
(** * Results of a search on a service in use *)
(* ===================================================================== *)

Lemma keeps_lists_refl (w : World) : keeps_lists w w.
Proof. intros H. exact H. Qed.

Lemma keeps_lists_trans (w1 w2 w3 : World) :
  keeps_lists w1 w2 -> keeps_lists w2 w3 -> keeps_lists w1 w3.
Proof. intros H12 H23 H. exact (H23 (H12 H)). Qed.

Lemma keeps_lists_subseteq (w w' : World) :
  cache w' ⊆ cache w -> keeps_lists w w'.
Proof.
  intros Hsub Hw key e He. apply Hw.
  exact (lookup_weaken _ _ _ _ He Hsub).
Qed.

(** A computation that can only lose entries keeps the lists. *)
Lemma shrinks_keeps_lists {A} (m : M A) :
  shrinks_cache m -> respects keeps_lists m.
Proof.
  intros Hm w o w' Hrun. apply keeps_lists_subseteq.
  exact (Hm _ _ _ Hrun).
Qed.

Lemma keeps_lists_Date_now : respects keeps_lists Date_now.
Proof. intros w o w' [= _ <-]. now apply keeps_lists_subseteq. Qed.

Lemma keeps_lists_cache_size : respects keeps_lists cache_size.
Proof. intros w o w' [= _ <-]. now apply keeps_lists_subseteq. Qed.

Lemma keeps_lists_cache_clear : respects keeps_lists cache_clear.
Proof.
  intros w o w' [= _ <-]. apply keeps_lists_subseteq. simpl.
  apply map_empty_subseteq.
Qed.

Lemma keeps_lists_cache_delete_where (drop : CacheEntry -> bool) :
  respects keeps_lists (cache_delete_where drop).
Proof.
  intros w o w' [= _ <-]. apply keeps_lists_subseteq. simpl.
  apply map_filter_subseteq.
Qed.

Lemma keeps_lists_cache_set (key : jsstring) (e : CacheEntry) :
  list_or_book key e -> respects keeps_lists (cache_set key e).
Proof.
  intros Hnew w o w' [= _ <-] Hw k e'. simpl.
  destruct (decide (k = key)) as [->|Hk].
  - rewrite lookup_insert_eq. now intros [= <-].
  - rewrite lookup_insert_ne by congruence. apply Hw.
Qed.

Lemma keeps_lists_makeRequest (method : Method) (endpoint : jsstring)
    (body : option SearchBody) :
  respects keeps_lists (makeRequest method endpoint body).
Proof. apply shrinks_keeps_lists, keeps_shrinks, keeps_cache_makeRequest. Qed.

Lemma keeps_lists_transformBookData (book : value) :
  respects keeps_lists (transformBookData book).
Proof.
  apply shrinks_keeps_lists, keeps_shrinks, keeps_cache_transformBookData.
Qed.

Lemma keeps_lists_transformBooksData (books : value) :
  respects keeps_lists (transformBooksData books).
Proof.
  apply shrinks_keeps_lists, keeps_shrinks, keeps_cache_transformBooksData.
Qed.

Lemma keeps_lists_cache_hit (useCache : bool) (key : jsstring) :
  respects keeps_lists (cache_hit useCache key).
Proof. apply shrinks_keeps_lists, cache_hit_shrinks. Qed.

Lemma keeps_lists_from_cache (key : jsstring) :
  respects keeps_lists (from_cache key).
Proof. apply shrinks_keeps_lists, shrinks_from_cache. Qed.

#[local] Hint Resolve keeps_lists_Date_now keeps_lists_cache_size
  keeps_lists_cache_clear keeps_lists_cache_delete_where
  keeps_lists_makeRequest keeps_lists_transformBookData
  keeps_lists_transformBooksData keeps_lists_cache_hit
  keeps_lists_from_cache : runs.

Ltac listing := run_steps keeps_lists_refl keeps_lists_trans.

Lemma keeps_lists_clearOldCache : respects keeps_lists clearOldCache.
Proof. unfold clearOldCache. listing. Qed.

#[local] Hint Resolve keeps_lists_clearOldCache : runs.

(** [setCache] keeps the lists when it is given a list, or the key of a
    single book. *)
Lemma keeps_lists_setCache (key : jsstring) (payload : Payload) :
  (forall now, list_or_book key {| data := payload; timestamp := now |}) ->
  respects keeps_lists (setCache key payload).
Proof.
  intros Hnew. unfold setCache.
  apply (respects_bind _ keeps_lists_trans); [listing|]. intros now.
  apply (respects_bind _ keeps_lists_trans);
    [apply keeps_lists_cache_set, Hnew|].
  intros _. listing.
Qed.

Lemma keeps_lists_setCache_list (key : jsstring) (l : list BookRecord) :
  respects keeps_lists (setCache key (Books l)).
Proof. apply keeps_lists_setCache. intros now. right. now exists l. Qed.

Lemma keeps_lists_setCache_book (id : jsstring) (payload : Payload) :
  respects keeps_lists (setCache (lit "book_" ++ id) payload).
Proof. apply keeps_lists_setCache. intros now. left. now exists id. Qed.

#[local] Hint Resolve keeps_lists_setCache_list keeps_lists_setCache_book
  : runs.

Lemma keeps_lists_call (op : Operation) : respects keeps_lists (call op).
Proof.
  destruct op as [query options|useCache|bookId useCache]; simpl.
  - unfold searchBooks. listing.
  - unfold getAllBooks. listing.
  - unfold getBookDetails. listing.
Qed.

Lemma keeps_lists_invoke (c : Invocation) (w : World) :
  keeps_lists w (invoke c w).
Proof.
  assert (Hrun : forall A (m : M A), respects keeps_lists m ->
                                     keeps_lists w (m w).2).
  { intros A m Hm. destruct (m w) as [o w'] eqn:Hmw. exact (Hm _ _ _ Hmw). }
  destruct c; cbv beta iota delta [invoke]; apply Hrun.
  - apply keeps_lists_call.
  - intros w0 o w' [= _ <-]. now apply keeps_lists_subseteq.
  - intros w0 o w' [= _ <-]. now apply keeps_lists_subseteq.
  - apply keeps_lists_makeRequest.
  - apply keeps_lists_transformBooksData.
  - apply keeps_lists_transformBookData.
  - apply (keeps_lists_cache_hit true).
  - apply keeps_lists_clearOldCache.
  - apply keeps_lists_cache_clear.
  - unfold getCacheStats. listing.
  - unfold getConfiguration. listing.
  - unfold updateConfiguration, assign_if_truthy, getConfiguration.
    listing; intros w0 o w' [= _ <-]; now apply keeps_lists_subseteq.
  - unfold testConnection. listing.
Qed.

(** The cache of a service in use holds lists of records only, outside
    the keys of single books. *)
Lemma reachable_holds_lists (w : World) : reachable w -> holds_lists w.
Proof.
  induction 1 as [clock remote|w c _ IH|w answers _ IH].
  - intros key e He. simpl in He. now rewrite lookup_empty in He.
  - exact (keeps_lists_invoke c w IH).
  - exact IH.
Qed.

(** The key of a search is not the key of a single book. *)
Lemma search_key_no_book (cleanQuery : jsstring) (maxResults : Z)
    (id : jsstring) :
  search_key cleanQuery maxResults <> lit "book_" ++ id.
Proof. discriminate. Qed.

(** C7 (amended): every successful result of a search on a service in
    use carries the success flag, the list of records as its [data] and a
    [fromCache] indicator, whether it was fetched or served from the
    cache; a result fetched from the network ([fromCache] false) carries a
    [totalItems] count as well, and a result served from the cache
    carries no [totalItems]. *)
Theorem C7_search_result_shape (query : option jsstring)
    (options : SearchOptions) (w w' : World) (r : Result) :
  reachable w ->
  searchBooks query options w = (Return r, w') ->
  success r = true ->
  (exists l, result_data r = Some (Books l))
  /\ is_Some (fromCache r)
  /\ (fromCache r = Some false -> is_Some (totalItems r))
  /\ (fromCache r = Some true -> totalItems r = None).
Proof.
  intros Hreach Hrun Hok.
  apply reachable_holds_lists in Hreach.
  unfold searchBooks in Hrun.
  apply try_catch_success in Hrun; [|exact Hok].
  destruct (query_rejected query).
  { injection Hrun as <- _. discriminate Hok. }
  apply bind_inv in Hrun as (configured & w0 & [= <- <-] & Hrun).
  apply bind_inv in Hrun as (hit & w1 & Hhit & Hrun).
  destruct hit.
  - apply cache_hit_true in Hhit as (e & He & _ & Hcache).
    rewrite (from_cache_entry _ w1 e) in Hrun by congruence.
    injection Hrun as <- _. simpl.
    destruct (Hreach _ _ He) as [[id Hid]|[l Hl]].
    + now destruct (search_key_no_book _ _ _ Hid).
    + rewrite Hl. repeat split; eauto; discriminate.
  - revert Hrun Hok. clear.
    generalize w1 r w'.
    change (yields (fun r =>
              success r = true ->
              (exists l, result_data r = Some (Books l))
              /\ is_Some (fromCache r)
              /\ (fromCache r = Some false -> is_Some (totalItems r))
              /\ (fromCache r = Some true -> totalItems r = None))
            (response ← makeRequest POST (lit "/search")
               (Some {| body_query := trim (default [] query);
                        body_maxResults :=
                          default (maxResults w) (opt_maxResults options) |});
             match response with
             | RequestFailed message => mret (failure message)
             | RequestOk response_data =>
                 books ← lift (prop_or response_data "books" (VArray []));
                 transformedBooks ← transformBooksData books;
                 (if default true (opt_useCache options)
                  then setCache
                         (search_key (trim (default [] query))
                            (default (maxResults w) (opt_maxResults options)))
                         (Books transformedBooks)
                  else mret tt);;
                 total ← lift (prop_or response_data "totalItems"
                                 (VNumber
                                    (Z.of_nat (length transformedBooks))));
                 mret {| success := true;
                         result_data := Some (Books transformedBooks);
                         totalItems := Some total;
                         fromCache := Some false; error := None |}
             end)).
    apply yields_bind. intros [d|m].
    2: { apply yields_ret. discriminate. }
    repeat (apply yields_bind; intros ?). apply yields_ret. intros _. simpl.
    repeat split; eauto; discriminate.
Qed.

Lemma C7_search_result_shape_witness :
  exists r w',
    searchBooks (Some (lit "dune"))
      {| opt_maxResults := None; opt_useCache := None |} searched_once
    = (Return r, w')
    /\ fromCache r = Some true
    /\ (exists l, result_data r = Some (Books l))
    /\ is_Some (fromCache r)
    /\ (fromCache r = Some false -> is_Some (totalItems r))
    /\ (fromCache r = Some true -> totalItems r = None).
Proof.
  assert (Hrun : searchBooks (Some (lit "dune"))
                   {| opt_maxResults := None; opt_useCache := None |}
                   searched_once
                 = (Return {| success := true; result_data := Some (Books []);
                              totalItems := None; fromCache := Some true;
                              error := None |},
                    (searchBooks (Some (lit "dune"))
                       {| opt_maxResults := None; opt_useCache := None |}
                       searched_once).2))
    by (vm_compute; reflexivity).
  do 2 eexists. split; [exact Hrun|]. split; [reflexivity|].
  apply (C7_search_result_shape _ _ searched_once _ _
           (reach_invoke _ _ (reach_new _ _)) Hrun).
  reflexivity.
Defined.

(** A direct call of [setCache] is another matter: it can put anything
    under the key of a search, and the next search serves it. *)
Lemma direct_setCache_is_served :
  let options := {| opt_maxResults := None; opt_useCache := None |} in
  let w := (setCache (search_key (lit "dune") 20) (Book None)
              (new_service (fun _ => 0) (fun _ => NetworkFailure))).2 in
  exists r w',
    searchBooks (Some (lit "dune")) options w = (Return r, w')
    /\ success r = true
    /\ fromCache r = Some true
    /\ result_data r = Some (Book None).
Proof. do 2 eexists. split; [vm_compute; reflexivity|]. repeat split. Qed.
